(** * Verification of the scrobbler protocol client (baseScrobbler.js)

    The development embeds [src/core/background/scrobblers/baseScrobbler.js]
    shallowly: the pure helpers ([createQueryString], [generateSign],
    [processResponse]) are Rocq functions, the promise-returning methods
    ([getAuthUrl], [getSession], [tradeTokenForSession], [doRequest],
    [scrobble], ...) are computations in a small promise monad that threads
    the persistent store and the log of issued HTTP requests.

    Conventions of the embedding:
    - a JavaScript string is a [string] of 8-bit code units; the default
      [Array.prototype.sort] order is the code-unit order [String.compare];
    - a JavaScript value that can sit in the store or in a parameter object is
      a [value] (undefined, null, boolean, integral number, string);
    - an object used as a parameter mapping is the list of its own enumerable
      properties in enumeration order, with unique keys; [literal] builds
      that list from the entries in the order a caller supplies them;
    - [console.log]/[console.warn] calls have no effect on any result and are
      left out. *)

From Stdlib Require Import List String Ascii Bool NArith ZArith Lia.
From Stdlib Require Import DecimalString Permutation Sorted.
Import ListNotations.

Local Open Scope list_scope.
Local Open Scope string_scope.

(* ================================================================= *)
(** ** JavaScript values *)

Module JS.

Inductive value : Type :=
| VUndefined
| VNull
| VBool (b : bool)
| VNum (n : Z)
| VStr (s : string).

(** [ToBoolean]: what [if (v)], [!v] and [v || w] test. *)
Definition truthy (v : value) : bool :=
  match v with
  | VUndefined | VNull => false
  | VBool b => b
  | VNum n => negb (n =? 0)%Z
  | VStr s => negb (s =? EmptyString)%string
  end.

(** [v || w] *)
Definition or (v w : value) : value := if truthy v then v else w.

(** [v === w] *)
Definition strict_eqb (v w : value) : bool :=
  match v, w with
  | VUndefined, VUndefined => true
  | VNull, VNull => true
  | VBool a, VBool b => Bool.eqb a b
  | VNum a, VNum b => (a =? b)%Z
  | VStr a, VStr b => (a =? b)%string
  | _, _ => false
  end.

(** [v == null]: the value is null or undefined. *)
Definition nullish (v : value) : bool :=
  match v with
  | VUndefined | VNull => true
  | _ => false
  end.

(** [ToString], as applied by [+] on strings, by template literals and by
    [encodeURIComponent]. *)
Definition toString (v : value) : string :=
  match v with
  | VUndefined => "undefined"
  | VNull => "null"
  | VBool true => "true"
  | VBool false => "false"
  | VNum n => NilZero.string_of_int (Z.to_int n)
  | VStr s => s
  end.

(** *** Objects used as string-keyed mappings *)

(** Own enumerable properties, in [for ... in] enumeration order. *)
Definition object := list (string * value).

Definition keys (o : object) : list string := map fst o.

(** [o[k]] *)
Fixpoint get (o : object) (k : string) : value :=
  match o with
  | [] => VUndefined
  | (k', v) :: o' => if (k' =? k)%string then v else get o' k
  end.

(** [o.hasOwnProperty(k)] *)
Fixpoint has (o : object) (k : string) : bool :=
  match o with
  | [] => false
  | (k', _) :: o' => if (k' =? k)%string then true else has o' k
  end.

(** [o[k] = v]: an existing property keeps its place, a new one goes last. *)
Fixpoint set (o : object) (k : string) (v : value) : object :=
  match o with
  | [] => [(k, v)]
  | (k', v') :: o' =>
      if (k' =? k)%string then (k, v) :: o' else (k', v') :: set o' k v
  end.

(** Well-formed objects have no repeated key. *)
Definition wf (o : object) : Prop := NoDup (keys o).

(** [parts.join(sep)] on an array of strings. *)
Fixpoint join_from (sep : string) (first : bool) (acc : string)
         (parts : list string) : string :=
  match parts with
  | [] => acc
  | p :: rest =>
      join_from sep false
        (if first then acc ++ p else acc ++ sep ++ p) rest
  end.

Definition join (sep : string) (parts : list string) : string :=
  join_from sep true EmptyString parts.

(** *** encodeURIComponent *)

Definition hex_digit (n : N) : ascii :=
  ascii_of_N (if (n <? 10)%N then 48 + n else 55 + n).

Definition percent (byte : N) : string :=
  String "%" (String (hex_digit (byte / 16)) (String (hex_digit (byte mod 16)) EmptyString)).

(** Characters left alone: A-Z a-z 0-9 and - _ . ! ~ * ' ( ) *)
Definition uri_unreserved (c : N) : bool :=
  ((65 <=? c) && (c <=? 90) || (97 <=? c) && (c <=? 122)
   || (48 <=? c) && (c <=? 57)
   || (c =? 45) || (c =? 95) || (c =? 46) || (c =? 33) || (c =? 126)
   || (c =? 42) || (c =? 39) || (c =? 40) || (c =? 41))%N.

(** A code unit below 0x80 is one UTF-8 byte, one in 0x80..0xFF is two.
    Strings here hold code units below 0x100 only: a lone surrogate, on which
    the built-in throws URIError, is not among them. *)
Definition encode_unit (a : ascii) : string :=
  let c := N_of_ascii a in
  if uri_unreserved c then String a EmptyString
  else if (c <? 128)%N then percent c
  else percent (192 + c / 64) ++ percent (128 + c mod 64).

Fixpoint encodeURIComponent (s : string) : string :=
  match s with
  | EmptyString => EmptyString
  | String a rest => encode_unit a ++ encodeURIComponent rest
  end.

(** *** Array.prototype.sort on strings (default comparator) *)

Fixpoint sort_insert (k : string) (l : list string) : list string :=
  match l with
  | [] => [k]
  | h :: t => if (k <=? h)%string then k :: l else h :: sort_insert k t
  end.

Definition sort (l : list string) : list string :=
  fold_right sort_insert [] l.

End JS.

Import JS.

(* ================================================================= *)
(** ** Property order of objects *)

(** An object enumerates its array-index keys first, in ascending numeric
    order, and then its other keys in the order they were created. An
    array index is a canonical decimal string below 2^32 - 1. *)
Definition digit_value (a : ascii) : option N :=
  let c := N_of_ascii a in
  if ((48 <=? c) && (c <=? 57))%N then Some (c - 48)%N else None.

Fixpoint decimal_value (s : string) (acc : N) : option N :=
  match s with
  | EmptyString => Some acc
  | String a rest =>
      match digit_value a with
      | Some d => decimal_value rest (10 * acc + d)%N
      | None => None
      end
  end.

Definition array_index (k : string) : option N :=
  match k with
  | EmptyString => None
  | String a rest =>
      if ((N_of_ascii a =? 48)%N && negb (rest =? EmptyString)%string)%bool
      then None
      else
        match decimal_value k 0 with
        | Some n => if (n <? 4294967295)%N then Some n else None
        | None => None
        end
  end.

(** A new array-index key goes before the first key that is no array index
    or a larger one. *)
Fixpoint insert_index (n : N) (k : string) (v : value) (o : object) : object :=
  match o with
  | [] => [(k, v)]
  | (k', v') :: o' =>
      match array_index k' with
      | Some n' =>
          if (n' <? n)%N then (k', v') :: insert_index n k v o'
          else (k, v) :: o
      | None => (k, v) :: o
      end
  end.

(** [o[k] = v] for any key: an existing property keeps its place, a new
    array index is put in numeric order, any other new key goes last. *)
Definition assign (o : object) (k : string) (v : value) : object :=
  if has o k then JS.set o k v
  else
    match array_index k with
    | Some n => insert_index n k v o
    | None => List.app o [(k, v)]
    end.

(** The object a caller builds from entries supplied in a given order, as
    an object literal or by successive assignments. *)
Definition literal (entries : list (string * value)) : object :=
  fold_left (fun o kv => assign o (fst kv) (snd kv)) entries [].

(* ================================================================= *)
(** ** Data model of the scrobbler *)

(** Constructor options kept on [this]. *)
Record Options : Type := {
  label : string;
  apiUrl : string;
  apiKey : string;
  apiSecret : string;
  authUrl : string;
  statusUrl : string
}.

(** Modelled from the spec: the module [objects/serviceCallResult] is not
    part of the sources; its results are the tagged variant
    [{ Ok } | { AuthError } | { OtherError }] of the data model. *)
Inductive ServiceCallResult : Type := Ok | AuthError | OtherError.

(** The credential record kept in the store namespace of the scrobbler; an
    absent property reads as [VUndefined]. *)
Record Data : Type := {
  token : value;
  sessionID : value;
  sessionName : value
}.

(** What [getSession] resolves with. *)
Record SessionData : Type := {
  sd_sessionID : value;
  sd_sessionName : value
}.

(** The [session] member of the auth.getsession reply, as far as the code
    reads it: [session.key] and [session.name]. *)
Record Session : Type := { key : value; name : value }.

(** The parsed JSON body [data] of the auth.getsession reply: JSON [null]
    (reading [data.session] throws), or a value whose [session] member is
    null/undefined ([None]) or readable ([Some]). *)
Inductive Reply : Type :=
| ReplyNull
| ReplyData (session : option Session).

(** The song as [scrobble], [sendNowPlaying] and [toggleLove] read it; the
    Song class is not part of the sources, so the results of its getters are
    fields. *)
Record Song : Type := {
  metadata_startTimestamp : value;
  processed_track : value;
  parsed_track : value;
  processed_artist : value;
  parsed_artist : value;
  getTrack : value;
  getArtist : value;
  getAlbum : value;
  getDuration : value
}.

(** *** XML documents behind a jQuery set *)

#[local] Set Warnings "-register-all".

Inductive node : Type :=
| Document (children : list node)
| Element (tag : string) (attrs : list (string * string)) (children : list node)
| Text (data : string).

(** A jQuery object: the matched nodes in document order. *)
Definition jq := list node.

Fixpoint descendants (n : node) : list node :=
  match n with
  | Document cs | Element _ _ cs => flat_map (fun c => c :: descendants c) cs
  | Text _ => []
  end.

Fixpoint textContent (n : node) : string :=
  match n with
  | Document cs | Element _ _ cs => String.concat EmptyString (map textContent cs)
  | Text s => s
  end.

Definition has_tag (sel : string) (n : node) : bool :=
  match n with
  | Element t _ _ => (t =? sel)%string
  | _ => false
  end.

(** [$set.find(sel)] for a tag-name selector. *)
Definition find (sel : string) (set : jq) : jq :=
  filter (has_tag sel) (flat_map descendants set).

Fixpoint attr_lookup (attrs : list (string * string)) (a : string) : value :=
  match attrs with
  | [] => VUndefined
  | (a', v) :: rest => if (a' =? a)%string then VStr v else attr_lookup rest a
  end.

(** [$set.attr(a)]: the attribute of the first matched element. *)
Definition attr (a : string) (set : jq) : value :=
  match set with
  | Element _ attrs _ :: _ => attr_lookup attrs a
  | _ => VUndefined
  end.

(** [$set.text()] *)
Definition text (set : jq) : string :=
  String.concat EmptyString (map textContent set).

(** *** Promises over the store and the network *)

(** Why a promise is rejected. *)
Inductive reason : Type :=
| Svc (r : ServiceCallResult)        (* a ServiceCallResult instance *)
| NoReason                           (* reject() *)
| NetworkError                       (* fetch() rejected *)
| BodyError                          (* response.text() / .json() could not read the body *)
| XmlError                           (* $.parseXML threw *)
| JsonError                          (* response.json() could not parse *)
| TypeError                          (* property read on null or undefined *)
| PromiseTimeout                     (* new Error('promise timeout') *)
| Wrapped (prefix : string) (cause : reason).   (* new Error(prefix + cause) *)

(** A rejection that is not a ServiceCallResult. *)
Definition is_raw_exception (e : reason) : bool :=
  match e with
  | Svc _ => false
  | _ => true
  end.

Record Request : Type := {
  url : string;
  method : option string            (* [None] for fetch(url) *)
}.

Record Response : Type := {
  status : N;
  body : option string              (* [None]: the body cannot be read *)
}.

(** How the remote end answers one [fetch]: the elapsed time is in
    milliseconds, up to the moment the body has been read. *)
Inductive FetchResult : Type :=
| Failed (ms : N)
| Answered (ms : N) (r : Response)
| Silent.

Record World : Type := {
  storage : Data;
  sent : list Request
}.

(** How a promise ends: settled [ms] milliseconds after the call, resolved
    ([inl]) or rejected ([inr]); or never settled. *)
Inductive settlement (A : Type) : Type :=
| Settled (ms : N) (r : A + reason)
| Never.
Arguments Settled {A} ms r.
Arguments Never {A}.

Definition Promise (A : Type) : Type := World -> settlement A * World.

Definition resolve {A} (a : A) : Promise A :=
  fun w => (Settled 0 (inl a), w).

Definition reject {A} (e : reason) : Promise A :=
  fun w => (Settled 0 (inr e), w).

Definition later {A} (ms : N) (s : settlement A) : settlement A :=
  match s with
  | Settled ms' r => Settled (ms + ms') r
  | Never => Never
  end.

(** [p.then(f)] *)
Definition andThen {A B} (p : Promise A) (f : A -> Promise B) : Promise B :=
  fun w =>
    match p w with
    | (Settled ms (inl a), w') => let (s, w'') := f a w' in (later ms s, w'')
    | (Settled ms (inr e), w') => (Settled ms (inr e), w')
    | (Never, w') => (Never, w')
    end.

(** [p.catch(h)] *)
Definition orCatch {A} (p : Promise A) (h : reason -> Promise A) : Promise A :=
  fun w =>
    match p w with
    | (Settled ms (inl a), w') => (Settled ms (inl a), w')
    | (Settled ms (inr e), w') => let (s, w'') := h e w' in (later ms s, w'')
    | (Never, w') => (Never, w')
    end.

Notation "x <- p ;; k" := (andThen p (fun x => k))
  (at level 61, p at next level, right associativity).
Notation "p ;;; k" := (andThen p (fun _ => k))
  (at level 61, right associativity).

(** [this.storage.get(cb)] and [this.storage.set(data, cb)]; the store
    answers at once. *)
Definition storage_get : Promise Data :=
  fun w => (Settled 0 (inl (storage w)), w).

Definition storage_set (d : Data) : Promise unit :=
  fun w => (Settled 0 (inl tt), {| storage := d; sent := sent w |}).

(** [response.text()] *)
Definition response_text (r : Response) : Promise string :=
  match body r with
  | Some s => resolve s
  | None => reject BodyError
  end.

Definition GET_AUTH_URL_TIMEOUT : N := 10000.

(** [timeoutPromise(timeout, promise)]: the timer wins unless the promise
    settles first; the effects of the promise happen either way. The source
    does not decide which of the two comes first when the promise settles at
    exactly [timeout]; the function has to pick one, and no property below
    speaks of that case. *)
Definition timeoutPromise {A} (timeout : N) (promise : Promise A) : Promise A :=
  fun w =>
    let (s, w') := promise w in
    (match s with
     | Settled ms r =>
         if (ms <? timeout)%N then Settled ms r
         else Settled timeout (inr PromiseTimeout)
     | Never => Settled timeout (inr PromiseTimeout)
     end, w').

(* ================================================================= *)
(** ** Reference definitions taken from the specification *)

(** The lexicographic order on strings, character codes compared as
    numbers: the order the specification asks the keys to be sorted in. *)
Inductive lex_le : string -> string -> Prop :=
| lex_le_empty (s : string) : lex_le EmptyString s
| lex_le_head (a b : ascii) (s t : string) :
    (N_of_ascii a < N_of_ascii b)%N -> lex_le (String a s) (String b t)
| lex_le_tail (a : ascii) (s t : string) :
    lex_le s t -> lex_le (String a s) (String a t).

(** The keys left out of the signed payload. *)
Definition reserved_key (k : string) : bool :=
  ((k =? "format") || (k =? "callback"))%string.

(** The signature as the specification words it, for a list [sorted_keys]
    holding the keys of [params] in lexicographic order: drop the reserved
    keys, concatenate key and value, append the secret, hash. *)
Definition sign_reference (MD5 : string -> string) (secret : string)
           (params : object) (sorted_keys : list string) : string :=
  let kept := filter (fun k => negb (reserved_key k)) sorted_keys in
  let payload :=
    String.concat EmptyString (map (fun k => k ++ toString (get params k)) kept) in
  MD5 (payload ++ secret).

(** The query string as the specification words it: one [key=urlEncode(value)]
    part per entry, in the order of the entries, joined with [&]. *)
Definition query_reference (params : object) : string :=
  String.concat "&"
    (map (fun kv => fst kv ++ "=" ++ encodeURIComponent (toString (snd kv)))
         params).

(* ================================================================= *)
(** ** Notions used in the properties *)

(** At most one of [token] and [sessionID] is active: not both are
    non-null. *)
Definition one_active (d : Data) : Prop :=
  nullish (token d) = true \/ nullish (sessionID d) = true.

(** The store of a fresh installation: [{}]. *)
Definition empty_data : Data :=
  {| token := VUndefined; sessionID := VUndefined; sessionName := VUndefined |}.

(** The part [createQueryString] pushes for one entry. *)
Definition query_part (kv : string * value) : string :=
  fst kv ++ "=" ++ encodeURIComponent (toString (snd kv)).

(** Credential records and session results named in the properties. *)
Definition all_null : Data :=
  {| token := VNull; sessionID := VNull; sessionName := VNull |}.

Definition session_data (s : Session) : SessionData :=
  {| sd_sessionID := key s; sd_sessionName := name s |}.

Definition cached_session (d : Data) : SessionData :=
  {| sd_sessionID := sessionID d; sd_sessionName := sessionName d |}.

(** The ways an API method may settle once its request is on the wire:
    resolved with Ok or OtherError, rejected with OtherError. *)
Definition is_call_result (r : ServiceCallResult + reason) : Prop :=
  r = inl Ok \/ r = inl OtherError \/ r = inr (Svc OtherError).

(** The reasons the token trade wraps into its own error. *)
Definition is_trade_cause (e : reason) : Prop :=
  e = NetworkError \/ e = BodyError \/ e = JsonError \/ e = TypeError.

(* ================================================================= *)
(** ** The background script's view of a scrobbler *)

(** What [authenticateScrobbler] asks of the browser and of the other
    modules: [ScrobbleService.bindScrobbler(scrobbler)],
    [browser.tabs.create({ url })] and
    [Notifications.showSignInError(scrobbler, onClick)], the last one with
    the requests its click handler makes when it runs. *)
Inductive BrowserEvent : Type :=
| BindScrobbler (scrobbler : string)
| CreateTab (tab_url : string)
| ShowSignInError (scrobbler : string) (on_click : list BrowserEvent).

(* ================================================================= *)
(** ** The class BaseScrobbler *)

Section BaseScrobbler.

(** [vendor/md5]: the digest, as a lowercase hex string. *)
Variable MD5 : string -> string.

(** [$($.parseXML(text))]: [None] when the parser throws, otherwise the
    jQuery set wrapping the parsed document (empty when jQuery returns
    null). *)
Variable parseXML : string -> option jq.

(** The JSON parser behind [response.json()]: [None] on a syntax error. *)
Variable parseJSON : string -> option Reply.

(** The remote end: its answer to a request, given the requests issued
    before. *)
Variable server : list Request -> Request -> FetchResult.

(** The instance: [this]. *)
Variable this : Options.

(** [fetch(url, { method })] *)
Definition fetch (req : Request) : Promise Response :=
  fun w =>
    let w' := {| storage := storage w; sent := List.app (sent w) [req] |} in
    match server (sent w) req with
    | Failed ms => (Settled ms (inr NetworkError), w')
    | Answered ms r => (Settled ms (inl r), w')
    | Silent => (Never, w')
    end.

(** [response.json()] *)
Definition response_json (r : Response) : Promise Reply :=
  match body r with
  | Some s =>
      match parseJSON s with
      | Some d => resolve d
      | None => reject JsonError
      end
  | None => reject BodyError
  end.

(** [$($.parseXML(text))] inside a [then] callback. *)
Definition parse_xml (text : string) : Promise jq :=
  match parseXML text with
  | Some doc => resolve doc
  | None => reject XmlError
  end.

Definition createQueryString (params : object) : string :=
  let parts :=
    fold_left
      (fun parts '(x, v) =>
         List.app parts [x ++ "=" ++ encodeURIComponent (toString v)])
      params [] in
  join "&" parts.

Definition generateSign (params : object) : string :=
  let keys := sort (keys params) in
  let o :=
    fold_left
      (fun o k =>
         if ((k =? "format") || (k =? "callback"))%string then o
         else o ++ k ++ toString (get params k))
      keys EmptyString in
  MD5 (o ++ apiSecret this).

Definition getAuthUrl : Promise string :=
  let url := apiUrl this ++ "?method=auth.gettoken&api_key=" ++ apiKey this in
  timeoutPromise GET_AUTH_URL_TIMEOUT
    (response <- fetch {| url := url; method := Some "GET" |} ;;
     text_ <- response_text response ;;
     xml <- parse_xml text_ ;;
     let status := attr "status" (find "lfm" xml) in
     data <- storage_get ;;
     if negb (strict_eqb status (VStr "ok")) then
       storage_set {| token := VNull;
                      sessionID := sessionID data;
                      sessionName := sessionName data |} ;;;
       reject NoReason
     else
       let tok := text (find "token" xml) in
       let authUrl_ :=
         authUrl this ++ "?api_key=" ++ apiKey this ++ "&token=" ++ tok in
       storage_set {| token := VStr tok;
                      sessionID := VNull;
                      sessionName := sessionName data |} ;;;
       resolve authUrl_).

Definition getStatusUrl : string := statusUrl this.

Definition tradeTokenForSession (token : value) : Promise (option Session) :=
  let params :=
    [("method", VStr "auth.getsession");
     ("api_key", VStr (apiKey this));
     ("token", token)] in
  let apiSig := generateSign params in
  let queryStr := createQueryString params in
  let url := apiUrl this ++ "?" ++ queryStr ++ "&api_sig=" ++ apiSig
             ++ "&format=json" in
  orCatch
    (response <- fetch {| url := url; method := None |} ;;
     data <- response_json response ;;
     match data with
     | ReplyNull => reject TypeError
     | ReplyData session => resolve session
     end)
    (fun err =>
       reject (Wrapped (label this ++ " auth.tradeTokenForSession failed: ") err)).

Definition getSession : Promise SessionData :=
  data <- storage_get ;;
  let token_ := JS.or (token data) VNull in
  if negb (strict_eqb token_ VNull) then
    orCatch
      (session <- tradeTokenForSession token_ ;;
       match session with
       | None => reject TypeError          (* session.key on undefined *)
       | Some session =>
           let data := {| token := VNull;
                          sessionID := key session;
                          sessionName := name session |} in
           storage_set data ;;;
           resolve {| sd_sessionID := sessionID data;
                      sd_sessionName := sessionName data |}
       end)
      (fun _ =>
         storage_set {| token := VNull;
                        sessionID := VNull;
                        sessionName := VNull |} ;;;
         reject (Svc AuthError))
  else if negb (truthy (sessionID data)) then
    reject (Svc AuthError)
  else
    resolve {| sd_sessionID := sessionID data;
               sd_sessionName := sessionName data |}.

(** The parameter object as [doRequest] completes it before the call. *)
Definition request_params (params : object) (signed : bool) : object :=
  let params := JS.set params "api_key" (VStr (apiKey this)) in
  if signed then JS.set params "api_sig" (VStr (generateSign params))
  else params.

Definition doRequest (method_ : string) (params : object) (signed : bool)
  : Promise jq :=
  let params := request_params params signed in
  let queryStr := createQueryString params in
  let url := apiUrl this ++ "?" ++ queryStr in
  orCatch
    (response <- fetch {| url := url; method := Some method_ |} ;;
     text_ <- response_text response ;;
     parse_xml text_)
    (fun _ => reject (Svc OtherError)).

Definition processResponse (doc : jq) : ServiceCallResult :=
  if negb (strict_eqb (attr "status" (find "lfm" doc)) (VStr "ok"))
  then OtherError
  else Ok.

Definition sendNowPlaying_params (song : Song) (sessionID : value) : object :=
  let params :=
    [("method", VStr "track.updatenowplaying");
     ("track", getTrack song);
     ("artist", getArtist song);
     ("api_key", VStr (apiKey this));
     ("sk", sessionID)] in
  let params :=
    if truthy (getAlbum song) then JS.set params "album" (getAlbum song)
    else params in
  if truthy (getDuration song) then JS.set params "duration" (getDuration song)
  else params.

Definition sendNowPlaying (song : Song) : Promise ServiceCallResult :=
  s <- getSession ;;
  doc <- doRequest "POST" (sendNowPlaying_params song (sd_sessionID s)) true ;;
  resolve (processResponse doc).

(** The object literal of [scrobble] and its conditional [album[0]]. *)
Definition scrobble_params (song : Song) (sessionID : value) : object :=
  let params :=
    [("method", VStr "track.scrobble");
     ("timestamp[0]", metadata_startTimestamp song);
     ("track[0]", JS.or (processed_track song) (parsed_track song));
     ("artist[0]", JS.or (processed_artist song) (parsed_artist song));
     ("api_key", VStr (apiKey this));
     ("sk", sessionID)] in
  if truthy (getAlbum song) then JS.set params "album[0]" (getAlbum song)
  else params.

Definition scrobble (song : Song) : Promise ServiceCallResult :=
  s <- getSession ;;
  doc <- doRequest "POST" (scrobble_params song (sd_sessionID s)) true ;;
  resolve (processResponse doc).

Definition toggleLove_params (song : Song) (isLoved : bool)
           (sessionID : value) : object :=
  [("method", VStr ("track." ++ (if isLoved then "love" else "unlove")));
   ("track", JS.or (processed_track song) (parsed_track song));
   ("artist", JS.or (processed_artist song) (parsed_artist song));
   ("api_key", VStr (apiKey this));
   ("sk", sessionID)].

Definition toggleLove (song : Song) (isLoved : bool)
  : Promise ServiceCallResult :=
  s <- getSession ;;
  doc <- doRequest "POST" (toggleLove_params song isLoved (sd_sessionID s)) true ;;
  resolve (processResponse doc).

Definition getLabel : string := label this.

(** *** The requests the methods put on the wire *)

(** The world after one more request has been issued. *)
Definition logged (w : World) (req : Request) : World :=
  {| storage := storage w; sent := List.app (sent w) [req] |}.

(** The auth.gettoken request of [getAuthUrl]. *)
Definition auth_request : Request :=
  {| url := apiUrl this ++ "?method=auth.gettoken&api_key=" ++ apiKey this;
     method := Some "GET" |}.

(** The auth.getsession request of [tradeTokenForSession]. *)
Definition trade_params (token : value) : object :=
  [("method", VStr "auth.getsession");
   ("api_key", VStr (apiKey this));
   ("token", token)].

Definition trade_request (token : value) : Request :=
  {| url := apiUrl this ++ "?" ++ createQueryString (trade_params token)
            ++ "&api_sig=" ++ generateSign (trade_params token)
            ++ "&format=json";
     method := None |}.

(** The request of [doRequest]. *)
Definition api_request (method_ : string) (params : object) (signed : bool)
  : Request :=
  {| url := apiUrl this ++ "?"
            ++ createQueryString (request_params params signed);
     method := Some method_ |}.

(** *** The worlds a sequence of calls can lead to *)

Inductive reachable : World -> Prop :=
| reach_fresh : reachable {| storage := empty_data; sent := [] |}
| reach_getAuthUrl (w : World) :
    reachable w -> reachable (snd (getAuthUrl w))
| reach_getSession (w : World) :
    reachable w -> reachable (snd (getSession w))
| reach_sendNowPlaying (song : Song) (w : World) :
    reachable w -> reachable (snd (sendNowPlaying song w))
| reach_scrobble (song : Song) (w : World) :
    reachable w -> reachable (snd (scrobble song w))
| reach_toggleLove (song : Song) (isLoved : bool) (w : World) :
    reachable w -> reachable (snd (toggleLove song isLoved w)).

(** *** The remaining methods *)

Definition loadSongInfo : Promise bool := resolve false.

Definition isLoadSongInfoSupported : bool := false.

(** How [doRequest(...).then(processResponse)] settles on one answer of the
    remote end. *)
Definition call_outcome (answer : FetchResult) : settlement ServiceCallResult :=
  match answer with
  | Failed ms => Settled ms (inr (Svc OtherError))
  | Answered ms r =>
      match body r with
      | Some body_ =>
          match parseXML body_ with
          | Some doc => Settled ms (inl (processResponse doc))
          | None => Settled ms (inr (Svc OtherError))
          end
      | None => Settled ms (inr (Svc OtherError))
      end
  | Silent => Never
  end.

(** *** The caller in the background script *)

(** [authenticateScrobbler(scrobbler)]: the settlement of the async
    function, what it asked of the browser, and the world it leaves. Both
    outcomes of [await scrobbler.getAuthUrl()] end in a resolved promise;
    [bindScrobbler] and [tabs.create] are taken not to throw. *)
Definition authenticateScrobbler (w : World)
  : settlement unit * list BrowserEvent * World :=
  let (s, w') := getAuthUrl w in
  match s with
  | Settled ms (inl authUrl_) =>
      (Settled ms (inl tt),
       [BindScrobbler (label this); CreateTab authUrl_], w')
  | Settled ms (inr _) =>
      let statusUrl_ := getStatusUrl in
      (Settled ms (inl tt),
       [ShowSignInError (label this)
          (if negb (statusUrl_ =? EmptyString) then [CreateTab statusUrl_]
           else [])], w')
  | Never => (Never, [], w')
  end.

End BaseScrobbler.

(** [n] calls of one operation in a row: the settlements, first call first,
    and the world they leave. *)
Fixpoint repeat_call {A : Type} (p : Promise A) (n : nat) (w : World)
  : list (settlement A) * World :=
  match n with
  | O => ([], w)
  | S n' =>
      let (s, w') := p w in
      let (rest, w'') := repeat_call p n' w' in
      (s :: rest, w'')
  end.

(* ================================================================= *)
(** ** A concrete service, used to run the client *)

Definition demo_md5 (s : string) : string := "md5:" ++ s.

Definition demo_options : Options :=
  {| label := "Last.fm";
     apiUrl := "https://ws.example/2.0/";
     apiKey := "KEY";
     apiSecret := "SECRET";
     authUrl := "https://www.example/api/auth/";
     statusUrl := "https://status.example/" |}.

Definition token_ok_xml : string := "<lfm status='ok'><token>abc123</token></lfm>".
Definition empty_ok_xml : string := "<lfm status='ok'/>".
Definition failed_xml : string := "<lfm status='failed'><error code='4'/></lfm>".
Definition session_json : string := "{'session':{'key':'sess1','name':'u1'}}".
Definition error_json : string := "{'error':14}".

Definition token_ok_doc : jq :=
  [Document [Element "lfm" [("status", "ok")]
               [Element "token" [] [Text "abc123"]]]].
Definition empty_ok_doc : jq :=
  [Document [Element "lfm" [("status", "ok")] []]].
Definition failed_doc : jq :=
  [Document [Element "lfm" [("status", "failed")]
               [Element "error" [("code", "4")] []]]].

Definition demo_parseXML (s : string) : option jq :=
  if s =? token_ok_xml then Some token_ok_doc
  else if s =? empty_ok_xml then Some empty_ok_doc
  else if s =? failed_xml then Some failed_doc
  else None.

Definition demo_parseJSON (s : string) : option Reply :=
  if s =? session_json then
    Some (ReplyData (Some {| key := VStr "sess1"; name := VStr "u1" |}))
  else if s =? error_json then Some (ReplyData None)
  else if s =? "null" then Some ReplyNull
  else None.

(** A remote end that gives the same answer to every request. *)
Definition always (r : FetchResult) : list Request -> Request -> FetchResult :=
  fun _ _ => r.

Definition answer (ms status : N) (body : string) : FetchResult :=
  Answered ms {| status := status; body := Some body |}.

(** A remote end that hands out a token, trades it for a session and
    accepts every call. *)
Definition demo_server : list Request -> Request -> FetchResult :=
  fun _ req =>
    match method req with
    | None => answer 90 200 session_json
    | Some m =>
        if m =? "GET" then answer 120 200 token_ok_xml
        else answer 60 200 empty_ok_xml
    end.

Definition world_of (d : Data) : World := {| storage := d; sent := [] |}.

Definition demo_session : Session :=
  {| key := VStr "sess1"; name := VStr "u1" |}.

(** The store after the user was sent to the authorization page. *)
Definition token_world : World :=
  world_of {| token := VStr "abc123"; sessionID := VNull; sessionName := VNull |}.

(** The store of an authenticated client. *)
Definition session_world : World :=
  world_of {| token := VNull; sessionID := VStr "sess1"; sessionName := VStr "u1" |}.

(** Stores whose token is the empty string. *)
Definition empty_token_world : World :=
  world_of {| token := VStr EmptyString; sessionID := VNull;
              sessionName := VNull |}.

Definition empty_token_session_world : World :=
  world_of {| token := VStr EmptyString; sessionID := VStr "sess1";
              sessionName := VStr "u1" |}.

Definition demo_song : Song :=
  {| metadata_startTimestamp := VNum 1000;
     processed_track := VNull; parsed_track := VStr "T";
     processed_artist := VNull; parsed_artist := VStr "A";
     getTrack := VStr "T"; getArtist := VStr "A";
     getAlbum := VNull; getDuration := VNull |}.

Definition demo_song_with_album : Song :=
  {| metadata_startTimestamp := VNum 1000;
     processed_track := VStr "T2"; parsed_track := VStr "T";
     processed_artist := VNull; parsed_artist := VStr "A";
     getTrack := VStr "T2"; getArtist := VStr "A";
     getAlbum := VStr "LP"; getDuration := VNum 200 |}.

Definition demo_params : object :=
  [("method", VStr "auth.getsession"); ("format", VStr "json");
   ("token", VStr "abc123"); ("api_key", VStr "KEY")].

Definition demo_params_reordered : object :=
  [("format", VStr "json"); ("method", VStr "auth.getsession");
   ("token", VStr "abc123"); ("api_key", VStr "KEY")].

(** Entries as a caller may write them, with array-index keys after a name. *)
Definition demo_entries : list (string * value) :=
  [("b", VStr "1"); ("10", VStr "x"); ("2", VStr "y")].

(** A store whose sessionID is the empty string, and a reply that leads to
    it. *)
Definition empty_session_world : World :=
  world_of {| token := VNull; sessionID := VStr EmptyString;
              sessionName := VStr "u1" |}.

Definition empty_key_json : string := "{'session':{'key':'','name':'u1'}}".

Definition demo_parseJSON_empty_key (s : string) : option Reply :=
  if s =? empty_key_json then
    Some (ReplyData (Some {| key := VStr EmptyString; name := VStr "u1" |}))
  else None.

(* ================================================================= *)
(** ** JavaScript values: basic facts *)

Lemma strict_eqb_eq (v w : value) : strict_eqb v w = true <-> v = w.
Proof.
  destruct v, w; simpl; split; intros H; try congruence; try discriminate.
  - apply Bool.eqb_prop in H. congruence.
  - inversion H. apply Bool.eqb_reflx.
  - apply Z.eqb_eq in H. congruence.
  - inversion H. apply Z.eqb_refl.
  - apply String.eqb_eq in H. congruence.
  - inversion H. apply String.eqb_refl.
Qed.

Lemma strict_eqb_neq (v w : value) : strict_eqb v w = false <-> v <> w.
Proof.
  destruct (strict_eqb v w) eqn:E.
  - apply strict_eqb_eq in E. split; [discriminate | contradiction].
  - split; [|reflexivity]. intros _ Heq. apply strict_eqb_eq in Heq. congruence.
Qed.

(* ================================================================= *)
(** ** Strings and arrays *)

Lemma append_nil_r (s : string) : s ++ EmptyString = s.
Proof. induction s as [|a s IH]; simpl; [reflexivity | now rewrite IH]. Qed.

Lemma append_assoc (s t u : string) : (s ++ t) ++ u = s ++ (t ++ u).
Proof. induction s as [|a s IH]; simpl; [reflexivity | now rewrite IH]. Qed.

Lemma join_from_concat (sep : string) (parts : list string) :
  forall (first : bool) (acc : string),
    join_from sep first acc parts =
    acc ++ match parts with
           | [] => EmptyString
           | _ :: _ => if first then String.concat sep parts
                       else sep ++ String.concat sep parts
           end.
Proof.
  induction parts as [|p rest IH]; intros first acc.
  - simpl. now rewrite append_nil_r.
  - cbn [join_from]. rewrite IH.
    destruct rest as [|q rest'].
    + simpl. rewrite append_nil_r. destruct first; reflexivity.
    + destruct first; cbn [String.concat]; now rewrite ?append_assoc.
Qed.

Lemma join_concat (sep : string) (parts : list string) :
  join sep parts = String.concat sep parts.
Proof.
  unfold join. rewrite join_from_concat. destruct parts; reflexivity.
Qed.

Lemma push_loop_parts (params : object) :
  forall acc : list string,
    fold_left
      (fun parts '(x, v) =>
         List.app parts [x ++ "=" ++ encodeURIComponent (toString v)])
      params acc
    = List.app acc (map query_part params).
Proof.
  induction params as [|[x v] params IH]; intros acc; simpl.
  - now rewrite app_nil_r.
  - rewrite IH, <- app_assoc. reflexivity.
Qed.

Lemma createQueryString_parts (params : object) :
  createQueryString params = join "&" (map query_part params).
Proof.
  unfold createQueryString. now rewrite push_loop_parts.
Qed.

(** *** The order a caller supplies and the order of enumeration *)

Lemma has_absent (o : object) (k : string) :
  ~ In k (keys o) -> has o k = false.
Proof.
  induction o as [|[k' v'] o IH]; simpl; [reflexivity|].
  intros Hnotin. destruct (String.eqb_spec k' k) as [->|_].
  - exfalso. apply Hnotin. now left.
  - apply IH. intros Hin. apply Hnotin. now right.
Qed.

(** Entries with distinct keys, none an array index, are enumerated in the
    order of their creation. *)
Lemma literal_loop_keeps_order (entries : list (string * value)) :
  forall acc : object,
    NoDup (List.app (keys acc) (map fst entries)) ->
    (forall k, In k (map fst entries) -> array_index k = None) ->
    fold_left (fun o kv => assign o (fst kv) (snd kv)) entries acc
    = List.app acc entries.
Proof.
  induction entries as [|[k v] entries IH]; intros acc Hnd Hidx.
  - simpl. now rewrite app_nil_r.
  - cbn [fold_left fst snd].
    assert (Hfresh : has acc k = false).
    { apply has_absent. intros Hin.
      apply NoDup_remove_2 in Hnd. apply Hnd.
      apply in_or_app. now left. }
    unfold assign at 2. rewrite Hfresh, (Hidx k) by now left.
    rewrite IH.
    + now rewrite <- app_assoc.
    + unfold keys. rewrite map_app, <- app_assoc. exact Hnd.
    + intros k' Hin. apply Hidx. now right.
Qed.

Lemma literal_keeps_order (entries : list (string * value)) :
  NoDup (map fst entries) ->
  (forall k, In k (map fst entries) -> array_index k = None) ->
  literal entries = entries.
Proof.
  intros Hnd Hidx. unfold literal.
  now rewrite literal_loop_keeps_order.
Qed.

(** C9 (amended). For the object a caller builds from its entries, free of
    an own property named hasOwnProperty, [createQueryString] returns the
    parts [key=encodeURIComponent(value)] joined with [&]: one part per
    property, the key taken as it is and only the value URL-encoded, the
    parts in the enumeration order of the object; [createQueryString] does
    no reordering of its own, and when the caller's keys are distinct and
    none of them is an array index the parts are in the order the caller
    supplied. *)
Theorem createQueryString_spec (entries : list (string * value)) :
  has (literal entries) "hasOwnProperty" = false ->
  createQueryString (literal entries) = query_reference (literal entries)
  /\ (NoDup (map fst entries) ->
      (forall k, In k (map fst entries) -> array_index k = None) ->
      literal entries = entries
      /\ createQueryString (literal entries) = query_reference entries).
Proof.
  intros _.
  assert (Href : forall params : object,
             createQueryString params = query_reference params).
  { intros params. rewrite createQueryString_parts, join_concat.
    reflexivity. }
  split; [apply Href|].
  intros Hnd Hidx.
  assert (Hsame : literal entries = entries)
    by now apply literal_keeps_order.
  split; [exact Hsame|].
  rewrite Hsame. apply Href.
Qed.

Lemma createQueryString_spec_witness :
  createQueryString
    (literal [("b", VStr "x y"); ("a", VNum 1000); ("a&b", VStr "c&d")])
  = "b=x%20y&a=1000&a&b=c%26d".
Proof.
  destruct (createQueryString_spec
              [("b", VStr "x y"); ("a", VNum 1000); ("a&b", VStr "c&d")]
              eq_refl) as [_ Horder].
  destruct Horder as [_ Hquery].
  - simpl. repeat constructor; simpl; intuition discriminate.
  - intros k [<-|[<-|[<-|[]]]]; reflexivity.
  - rewrite Hquery. reflexivity.
Defined.

(** C9, as stated, fails: array-index keys are enumerated first and in
    numeric order, wherever the caller put them. *)
Lemma createQueryString_index_keys_first :
  createQueryString (literal demo_entries) = "2=y&10=x&b=1"
  /\ query_reference demo_entries = "b=1&10=x&2=y"
  /\ createQueryString (literal demo_entries) <> query_reference demo_entries.
Proof.
  split; [reflexivity|]. split; [reflexivity | discriminate].
Qed.

Example array_index_samples :
  map array_index ["0"; "2"; "10"; "4294967294"; "4294967295"; "01"; "1a";
                   "b"; "track[0]"; "api_key"]
  = [Some 0%N; Some 2%N; Some 10%N; Some 4294967294%N; None; None; None;
     None; None; None].
Proof. reflexivity. Qed.

(* ================================================================= *)
(** ** The default sort order and [keys.sort()] *)

Lemma ascii_compare_refl (a : ascii) : Ascii.compare a a = Eq.
Proof. unfold Ascii.compare. apply N.compare_refl. Qed.

Lemma leb_lex_le (s t : string) : (s <=? t) = true <-> lex_le s t.
Proof.
  split.
  - revert t. induction s as [|a s IH]; intros t H.
    + constructor.
    + destruct t as [|b t]; unfold String.leb in H; simpl in H; [discriminate|].
      destruct (Ascii.compare a b) eqn:Hab.
      * apply Ascii.compare_eq_iff in Hab. subst b.
        apply lex_le_tail, IH. unfold String.leb.
        destruct (s ?= t); [reflexivity | reflexivity | discriminate].
      * apply lex_le_head. now apply N.compare_lt_iff.
      * discriminate.
  - induction 1 as [t | a b s t Hlt | a s t _ IH]; unfold String.leb in *.
    + destruct t; reflexivity.
    + simpl. unfold Ascii.compare.
      apply N.compare_lt_iff in Hlt. now rewrite Hlt.
    + simpl. rewrite ascii_compare_refl. exact IH.
Qed.

Lemma lex_le_trans (s t u : string) : lex_le s t -> lex_le t u -> lex_le s u.
Proof.
  intros Hst. revert u.
  induction Hst as [t | a b s t Hlt | a s t _ IH]; intros u Htu.
  - constructor.
  - inversion Htu; subst.
    + apply lex_le_head. eapply N.lt_trans; eassumption.
    + now apply lex_le_head.
  - inversion Htu; subst.
    + now apply lex_le_head.
    + apply lex_le_tail. now apply IH.
Qed.

Lemma lex_le_antisym (s t : string) : lex_le s t -> lex_le t s -> s = t.
Proof.
  intros H1 H2. apply String.leb_antisym; now apply leb_lex_le.
Qed.

Lemma lex_le_total (s t : string) : lex_le s t \/ lex_le t s.
Proof.
  destruct (String.leb_total s t); [left | right]; now apply leb_lex_le.
Qed.

Lemma sort_insert_perm (k : string) (l : list string) :
  Permutation (sort_insert k l) (k :: l).
Proof.
  induction l as [|h t IH]; simpl.
  - reflexivity.
  - destruct (k <=? h); [reflexivity|].
    rewrite IH. apply perm_swap.
Qed.

Lemma sort_perm (l : list string) : Permutation (sort l) l.
Proof.
  induction l as [|k l IH]; simpl.
  - constructor.
  - rewrite sort_insert_perm. now constructor.
Qed.

Lemma sort_insert_sorted (k : string) (l : list string) :
  StronglySorted lex_le l -> StronglySorted lex_le (sort_insert k l).
Proof.
  induction 1 as [|h t Hs IH Hall]; simpl.
  - repeat constructor.
  - destruct (k <=? h) eqn:Hkh.
    + apply leb_lex_le in Hkh.
      constructor; [now constructor|].
      constructor; [assumption|].
      eapply Forall_impl; [|exact Hall].
      intros x Hx. eapply lex_le_trans; eassumption.
    + assert (Hhk : lex_le h k).
      { destruct (lex_le_total k h) as [Hc|Hc]; [|assumption].
        apply leb_lex_le in Hc. congruence. }
      constructor; [assumption|].
      eapply Permutation_Forall.
      * symmetry. apply sort_insert_perm.
      * now constructor.
Qed.

Lemma sort_sorted (l : list string) : StronglySorted lex_le (sort l).
Proof.
  induction l as [|k l IH]; simpl.
  - constructor.
  - now apply sort_insert_sorted.
Qed.

(** A list has at most one sorted arrangement. *)
Lemma sorted_perm_unique (l1 : list string) :
  forall l2 : list string,
    StronglySorted lex_le l1 -> StronglySorted lex_le l2 ->
    Permutation l1 l2 -> l1 = l2.
Proof.
  induction l1 as [|a l1 IH]; intros l2 H1 H2 Hp.
  - apply Permutation_nil in Hp. now subst.
  - destruct l2 as [|b l2].
    + symmetry in Hp. apply Permutation_nil in Hp. discriminate.
    + inversion H1 as [|? ? Hs1 Ha]; subst.
      inversion H2 as [|? ? Hs2 Hb]; subst.
      assert (Hab : a = b).
      { assert (Hin_a : In a (b :: l2))
          by (eapply Permutation_in; [exact Hp | now left]).
        assert (Hin_b : In b (a :: l1))
          by (eapply Permutation_in; [symmetry; exact Hp | now left]).
        destruct Hin_a as [<-|Hin_a]; [reflexivity|].
        destruct Hin_b as [<-|Hin_b]; [reflexivity|].
        rewrite Forall_forall in Ha, Hb.
        apply lex_le_antisym; [now apply Ha | now apply Hb]. }
      subst b. f_equal.
      apply IH; try assumption.
      eapply Permutation_cons_inv; exact Hp.
Qed.

Lemma sort_unique (l sorted : list string) :
  Permutation sorted l -> StronglySorted lex_le sorted -> sort l = sorted.
Proof.
  intros Hp Hs. apply sorted_perm_unique.
  - apply sort_sorted.
  - assumption.
  - rewrite sort_perm. now symmetry.
Qed.

(* ================================================================= *)
(** ** Signing *)

Lemma concat_empty_cons (x : string) (l : list string) :
  String.concat EmptyString (x :: l) = x ++ String.concat EmptyString l.
Proof.
  destruct l as [|y l]; simpl; [now rewrite append_nil_r | reflexivity].
Qed.

(** The accumulation loop of [generateSign] over the sorted keys. *)
Lemma sign_loop_payload (params : object) (ks : list string) :
  forall o : string,
    fold_left
      (fun o k =>
         if ((k =? "format") || (k =? "callback"))%string then o
         else o ++ k ++ toString (get params k))
      ks o
    = o ++ String.concat EmptyString
             (map (fun k => k ++ toString (get params k))
                  (filter (fun k => negb (reserved_key k)) ks)).
Proof.
  induction ks as [|k ks IH]; intros o.
  - simpl. now rewrite append_nil_r.
  - cbn [fold_left filter]. rewrite IH. unfold reserved_key at 2.
    destruct ((k =? "format") || (k =? "callback"))%bool; cbn [negb].
    + reflexivity.
    + cbn [map]. rewrite concat_empty_cons. now rewrite !append_assoc.
Qed.

Lemma get_in (params : object) (k : string) (v : value) :
  wf params -> In (k, v) params -> get params k = v.
Proof.
  unfold wf, keys.
  induction params as [|[k' v'] params IH]; intros Hnd Hin; [contradiction|].
  simpl in *. inversion Hnd as [|? ? Hnotin Hnd']; subst.
  destruct Hin as [Heq|Hin].
  - inversion Heq; subst. now rewrite String.eqb_refl.
  - destruct (String.eqb_spec k' k) as [->|_].
    + exfalso. apply Hnotin. change k with (fst (k, v)). now apply in_map.
    + now apply IH.
Qed.

Lemma get_absent (params : object) (k : string) :
  ~ In k (keys params) -> get params k = VUndefined.
Proof.
  induction params as [|[k' v'] params IH]; intros Hnotin; [reflexivity|].
  simpl in *. destruct (String.eqb_spec k' k) as [->|_].
  - exfalso. apply Hnotin. now left.
  - apply IH. intros Hin. apply Hnotin. now right.
Qed.

Lemma wf_perm (params params' : object) :
  Permutation params params' -> wf params -> wf params'.
Proof.
  unfold wf, keys. intros Hp Hnd.
  eapply Permutation_NoDup; [|exact Hnd]. now apply Permutation_map.
Qed.

(** Reading a property does not depend on the insertion order. *)
Lemma get_perm (params params' : object) (k : string) :
  wf params -> Permutation params params' -> get params' k = get params k.
Proof.
  intros Hwf Hp.
  destruct (in_dec string_dec k (keys params)) as [Hin|Hnotin].
  - unfold keys in Hin. apply in_map_iff in Hin.
    destruct Hin as [[k' v] [Hk Hin]]. simpl in Hk. subst k'.
    rewrite (get_in params k v Hwf Hin).
    apply get_in.
    + eapply wf_perm; eassumption.
    + eapply Permutation_in; eassumption.
  - rewrite (get_absent params k Hnotin).
    apply get_absent. intros Hin. apply Hnotin.
    eapply Permutation_in; [|exact Hin].
    unfold keys. apply Permutation_map. now symmetry.
Qed.

Lemma generateSign_reference (MD5 : string -> string) (this : Options)
      (params : object) :
  generateSign MD5 this params
  = sign_reference MD5 (apiSecret this) params (sort (keys params)).
Proof.
  unfold generateSign, sign_reference. now rewrite sign_loop_payload.
Qed.

(** C1. The keys of every mapping have a lexicographically sorted
    arrangement, and the signature computed by [generateSign] is the
    reference signature of the specification taken on it (reserved keys
    dropped, key and value concatenated, secret appended, digest taken); two
    insertion orders of one mapping have the same signature. *)
Theorem generateSign_spec (MD5 : string -> string) (this : Options)
        (params : object) :
  (exists sorted_keys : list string,
      Permutation sorted_keys (keys params)
      /\ StronglySorted lex_le sorted_keys)
  /\ (forall sorted_keys : list string,
      Permutation sorted_keys (keys params) ->
      StronglySorted lex_le sorted_keys ->
      generateSign MD5 this params
      = sign_reference MD5 (apiSecret this) params sorted_keys)
  /\ (forall params' : object,
        wf params -> Permutation params params' ->
        generateSign MD5 this params' = generateSign MD5 this params).
Proof.
  split; [|split].
  - exists (sort (keys params)). split; [apply sort_perm | apply sort_sorted].
  - intros sorted_keys Hp Hs.
    rewrite generateSign_reference.
    now rewrite (sort_unique (keys params) sorted_keys Hp Hs).
  - intros params' Hwf Hp.
    rewrite !generateSign_reference.
    assert (Hks : sort (keys params') = sort (keys params)).
    { apply sort_unique; [|apply sort_sorted].
      rewrite sort_perm. unfold keys. now apply Permutation_map. }
    rewrite Hks. unfold sign_reference. do 3 f_equal.
    apply map_ext. intros k. now rewrite (get_perm params params' k Hwf Hp).
Qed.

(* ================================================================= *)
(** ** Running promises *)

Section Properties.

Variable MD5 : string -> string.
Variable parseXML : string -> option jq.
Variable parseJSON : string -> option Reply.
Variable server : list Request -> Request -> FetchResult.
Variable this : Options.

Lemma fetch_run (req : Request) (w : World) :
  fetch server req w
  = (match server (sent w) req with
     | Failed ms => Settled ms (inr NetworkError)
     | Answered ms r => Settled ms (inl r)
     | Silent => Never
     end, logged w req).
Proof.
  unfold fetch, logged. destruct (server (sent w) req); reflexivity.
Qed.

(** *** tradeTokenForSession *)

Lemma tradeTokenForSession_world (tok : value) (w : World) :
  snd (tradeTokenForSession MD5 parseJSON server this tok w)
  = logged w (trade_request MD5 this tok).
Proof.
  unfold tradeTokenForSession, orCatch, andThen.
  rewrite fetch_run.
  fold (trade_params this tok). fold (trade_request MD5 this tok).
  destruct (server (sent w) (trade_request MD5 this tok)) as [ms|ms r|];
    try reflexivity.
  unfold response_json.
  destruct (body r) as [s|]; [|reflexivity].
  destruct (parseJSON s) as [[|session]|]; reflexivity.
Qed.

(** The trade never rejects with anything but its own wrapped error. *)
Lemma tradeTokenForSession_rejects (tok : value) (w : World) (ms : N)
      (e : reason) :
  fst (tradeTokenForSession MD5 parseJSON server this tok w)
  = Settled ms (inr e) ->
  exists cause,
    e = Wrapped (label this ++ " auth.tradeTokenForSession failed: ") cause.
Proof.
  unfold tradeTokenForSession, orCatch, andThen.
  rewrite fetch_run.
  destruct (server (sent w) _) as [ms'|ms' r|]; simpl.
  - intros H. inversion H. eauto.
  - unfold response_json.
    destruct (body r) as [s|]; simpl.
    + destruct (parseJSON s) as [[|session]|]; simpl;
        intros H; inversion H; eauto.
    + intros H. inversion H. eauto.
  - discriminate.
Qed.

(** *** getSession *)

Local Abbreviation trade := (tradeTokenForSession MD5 parseJSON server this).
Local Abbreviation get_session := (getSession MD5 parseJSON server this).

Lemma truthy_or_null (v : value) :
  truthy v = true -> JS.or v VNull = v /\ strict_eqb v VNull = false.
Proof.
  intros H. unfold JS.or. rewrite H. split; [reflexivity|].
  destruct v; simpl in *; congruence.
Qed.

Lemma falsy_or_null (v : value) :
  truthy v = false -> JS.or v VNull = VNull.
Proof. intros H. unfold JS.or. now rewrite H. Qed.

(** With a truthy stored token [getSession] is decided by the trade. *)
Lemma getSession_trade (w : World) :
  truthy (token (storage w)) = true ->
  get_session w =
  match trade (token (storage w)) w with
  | (Settled ms (inl (Some s)), w1) =>
      (Settled ms (inl (session_data s)),
       {| storage := {| token := VNull; sessionID := key s;
                        sessionName := name s |};
          sent := sent w1 |})
  | (Settled ms _, w1) =>
      (Settled ms (inr (Svc AuthError)),
       {| storage := all_null; sent := sent w1 |})
  | (Never, w1) => (Never, w1)
  end.
Proof.
  intros Htok. destruct (truthy_or_null _ Htok) as [Hor Hne].
  unfold getSession, andThen at 1, storage_get.
  rewrite Hor, Hne. cbn [negb].
  unfold orCatch, andThen.
  destruct (trade (token (storage w)) w) as [[ms [[s|]|e]|] w1];
    cbn; rewrite ?N.add_0_r; reflexivity.
Qed.

(** Without a truthy stored token [getSession] touches neither the network
    nor the store. *)
Lemma getSession_no_token (w : World) :
  truthy (token (storage w)) = false ->
  get_session w =
  (if truthy (sessionID (storage w))
   then Settled 0 (inl (cached_session (storage w)))
   else Settled 0 (inr (Svc AuthError)), w).
Proof.
  intros Htok.
  unfold getSession, andThen, storage_get.
  rewrite (falsy_or_null _ Htok). cbn.
  destruct (truthy (sessionID (storage w))); reflexivity.
Qed.

Lemma getSession_trade_sent (w : World) :
  truthy (token (storage w)) = true ->
  sent (snd (get_session w))
  = List.app (sent w) [trade_request MD5 this (token (storage w))].
Proof.
  intros Htok. rewrite (getSession_trade w Htok).
  pose proof (tradeTokenForSession_world (token (storage w)) w) as Hw.
  destruct (trade (token (storage w)) w) as [[ms [[s|]|e]|] w1];
    simpl in Hw; subst w1; reflexivity.
Qed.

Lemma getSession_trade_success (w : World) (ms : N) (s : Session) :
  truthy (token (storage w)) = true ->
  fst (trade (token (storage w)) w) = Settled ms (inl (Some s)) ->
  fst (get_session w) = Settled ms (inl (session_data s))
  /\ storage (snd (get_session w))
     = {| token := VNull; sessionID := key s; sessionName := name s |}.
Proof.
  intros Htok Htr. rewrite (getSession_trade w Htok).
  destruct (trade (token (storage w)) w) as [tr w1]. simpl in Htr. subst tr.
  split; reflexivity.
Qed.

Lemma getSession_trade_failure (w : World) (ms : N) :
  truthy (token (storage w)) = true ->
  (exists e, fst (trade (token (storage w)) w) = Settled ms (inr e))
  \/ fst (trade (token (storage w)) w) = Settled ms (inl None) ->
  fst (get_session w) = Settled ms (inr (Svc AuthError))
  /\ storage (snd (get_session w)) = all_null.
Proof.
  intros Htok Htr. rewrite (getSession_trade w Htok).
  destruct (trade (token (storage w)) w) as [tr w1]. simpl in Htr.
  destruct Htr as [[e Htr]|Htr]; subst tr; split; reflexivity.
Qed.

(** C2 (amended). With a stored token that is truthy (neither null nor
    undefined nor empty) [getSession] issues exactly one request, the token
    trade. If the trade resolves with a session, the promise resolves at the
    same time with that session's key and name, and the store holds a null
    token and that key and name. If the trade rejects, or resolves without
    a session, the promise rejects with AuthError and the store holds null
    for token, sessionID and sessionName. With no truthy token and no truthy
    sessionID the promise rejects with AuthError, and neither the request
    log nor the store changes. *)
Theorem getSession_token_trade (w : World) :
  (truthy (token (storage w)) = true ->
     sent (snd (get_session w))
     = List.app (sent w) [trade_request MD5 this (token (storage w))]
     /\ (forall (ms : N) (s : Session),
           fst (trade (token (storage w)) w) = Settled ms (inl (Some s)) ->
           fst (get_session w) = Settled ms (inl (session_data s))
           /\ storage (snd (get_session w))
              = {| token := VNull; sessionID := key s;
                   sessionName := name s |})
     /\ (forall ms : N,
           (exists e, fst (trade (token (storage w)) w) = Settled ms (inr e))
           \/ fst (trade (token (storage w)) w) = Settled ms (inl None) ->
           fst (get_session w) = Settled ms (inr (Svc AuthError))
           /\ storage (snd (get_session w)) = all_null))
  /\ (truthy (token (storage w)) = false ->
      truthy (sessionID (storage w)) = false ->
      get_session w = (Settled 0 (inr (Svc AuthError)), w)).
Proof.
  split.
  - intros Htok. split; [|split].
    + now apply getSession_trade_sent.
    + intros ms s. now apply getSession_trade_success.
    + intros ms. now apply getSession_trade_failure.
  - intros Htok Hsess. rewrite (getSession_no_token w Htok).
    now rewrite Hsess.
Qed.

(** C3 (amended). With a stored sessionID that is truthy (not null, not
    undefined and not the empty string) and no token, [getSession] resolves
    at once with the stored sessionID and sessionName, issues no request and
    leaves the store as it is; any number of calls in a row all resolve with
    that same session and leave the world unchanged. *)
Theorem getSession_cached (w : World) :
  truthy (token (storage w)) = false ->
  truthy (sessionID (storage w)) = true ->
  get_session w = (Settled 0 (inl (cached_session (storage w))), w)
  /\ forall n : nat,
      repeat_call get_session n w
      = (repeat (Settled 0 (inl (cached_session (storage w)))) n, w).
Proof.
  intros Htok Hsess.
  assert (Hone : get_session w
                 = (Settled 0 (inl (cached_session (storage w))), w)).
  { rewrite (getSession_no_token w Htok). now rewrite Hsess. }
  split; [exact Hone|].
  induction n as [|n IH]; [reflexivity|].
  cbn [repeat_call repeat]. rewrite Hone, IH. reflexivity.
Qed.

(** C10 (amended). With a truthy stored token and a stored sessionID that
    is not null, [getSession] does not answer from the store: it issues the
    token trade; when the trade resolves with a session the stored
    sessionID and sessionName are overwritten with the traded key and name
    and the promise resolves with them; when the trade rejects or yields no
    session, the stored session is cleared together with the token and the
    promise rejects with AuthError. *)
Theorem getSession_token_beats_session (w : World) :
  truthy (token (storage w)) = true ->
  nullish (sessionID (storage w)) = false ->
  sent (snd (get_session w))
  = List.app (sent w) [trade_request MD5 this (token (storage w))]
  /\ (forall (ms : N) (s : Session),
        fst (trade (token (storage w)) w) = Settled ms (inl (Some s)) ->
        get_session w
        = (Settled ms (inl (session_data s)),
           {| storage := {| token := VNull; sessionID := key s;
                            sessionName := name s |};
              sent := List.app (sent w)
                        [trade_request MD5 this (token (storage w))] |}))
  /\ (forall ms : N,
        (exists e, fst (trade (token (storage w)) w) = Settled ms (inr e))
        \/ fst (trade (token (storage w)) w) = Settled ms (inl None) ->
        get_session w
        = (Settled ms (inr (Svc AuthError)),
           {| storage := all_null;
              sent := List.app (sent w)
                        [trade_request MD5 this (token (storage w))] |})).
Proof.
  intros Htok _.
  pose proof (tradeTokenForSession_world (token (storage w)) w) as Hw.
  split; [|split].
  - now apply getSession_trade_sent.
  - intros ms s Htr. rewrite (getSession_trade w Htok).
    destruct (trade (token (storage w)) w) as [tr w1].
    simpl in Htr, Hw. subst tr w1. reflexivity.
  - intros ms Htr. rewrite (getSession_trade w Htok).
    destruct (trade (token (storage w)) w) as [tr w1].
    simpl in Htr, Hw. subst w1.
    destruct Htr as [[e Htr]|Htr]; subst tr; reflexivity.
Qed.

(** *** getAuthUrl *)

Local Abbreviation get_auth_url := (getAuthUrl parseXML server this).

Lemma timeoutPromise_bounded {A : Type} (timeout : N) (p : Promise A)
      (w : World) :
  exists (ms : N) (r : A + reason),
    fst (timeoutPromise timeout p w) = Settled ms r /\ (ms <= timeout)%N.
Proof.
  unfold timeoutPromise. destruct (p w) as [[ms r|] w']; cbn [fst].
  - destruct (ms <? timeout)%N eqn:Hlt.
    + exists ms, r. split; [reflexivity|].
      apply N.ltb_lt in Hlt. lia.
    + exists timeout, (inr PromiseTimeout). split; [reflexivity | lia].
  - exists timeout, (inr PromiseTimeout). split; [reflexivity | lia].
Qed.

(** The answer is an envelope with status ok, in time or not. *)
Lemma getAuthUrl_ok (w : World) (ms : N) (r : Response) (body_ : string)
      (xml : jq) :
  server (sent w) (auth_request this) = Answered ms r ->
  body r = Some body_ ->
  parseXML body_ = Some xml ->
  attr "status" (find "lfm" xml) = VStr "ok" ->
  get_auth_url w
  = ((if (ms <? GET_AUTH_URL_TIMEOUT)%N
      then Settled ms
             (inl (authUrl this ++ "?api_key=" ++ apiKey this ++ "&token="
                     ++ text (find "token" xml)))
      else Settled GET_AUTH_URL_TIMEOUT (inr PromiseTimeout)),
     {| storage := {| token := VStr (text (find "token" xml));
                      sessionID := VNull;
                      sessionName := sessionName (storage w) |};
        sent := List.app (sent w) [auth_request this] |}).
Proof.
  intros Hsrv Hbody Hxml Hst.
  unfold getAuthUrl, timeoutPromise, andThen.
  rewrite fetch_run. fold (auth_request this). rewrite Hsrv.
  unfold response_text. rewrite Hbody. cbn.
  unfold parse_xml. rewrite Hxml. cbn.
  rewrite Hst. cbn. rewrite !N.add_0_r. reflexivity.
Qed.

(** The answer is an envelope whose status is not ok. *)
Lemma getAuthUrl_not_ok (w : World) (ms : N) (r : Response) (body_ : string)
      (xml : jq) :
  server (sent w) (auth_request this) = Answered ms r ->
  body r = Some body_ ->
  parseXML body_ = Some xml ->
  attr "status" (find "lfm" xml) <> VStr "ok" ->
  get_auth_url w
  = ((if (ms <? GET_AUTH_URL_TIMEOUT)%N
      then Settled ms (inr NoReason)
      else Settled GET_AUTH_URL_TIMEOUT (inr PromiseTimeout)),
     {| storage := {| token := VNull;
                      sessionID := sessionID (storage w);
                      sessionName := sessionName (storage w) |};
        sent := List.app (sent w) [auth_request this] |}).
Proof.
  intros Hsrv Hbody Hxml Hst.
  assert (Hneq : strict_eqb (attr "status" (find "lfm" xml)) (VStr "ok")
                 = false).
  { destruct (strict_eqb _ _) eqn:E; [|reflexivity].
    apply strict_eqb_eq in E. contradiction. }
  unfold getAuthUrl, timeoutPromise, andThen.
  rewrite fetch_run. fold (auth_request this). rewrite Hsrv.
  unfold response_text. rewrite Hbody. cbn.
  unfold parse_xml. rewrite Hxml. cbn.
  rewrite Hneq. cbn. rewrite !N.add_0_r. reflexivity.
Qed.

(** Whatever the remote end does, the store after [getAuthUrl] is the one
    before, or one written with a null sessionID, or one written with a
    null token. *)
Lemma getAuthUrl_store (w : World) :
  storage (snd (get_auth_url w)) = storage w
  \/ sessionID (storage (snd (get_auth_url w))) = VNull
  \/ token (storage (snd (get_auth_url w))) = VNull.
Proof.
  unfold getAuthUrl, timeoutPromise, andThen.
  rewrite fetch_run.
  destruct (server (sent w) _) as [ms|ms r|]; cbn; [now left | | now left].
  unfold response_text.
  destruct (body r) as [body_|]; cbn; [|now left].
  unfold parse_xml.
  destruct (parseXML body_) as [xml|]; cbn; [|now left].
  destruct (strict_eqb _ _); cbn; auto.
Qed.

Lemma getAuthUrl_late (w : World) :
  server (sent w) (auth_request this) = Silent
  \/ (exists ms, (GET_AUTH_URL_TIMEOUT < ms)%N
                 /\ (server (sent w) (auth_request this) = Failed ms
                     \/ exists r, server (sent w) (auth_request this)
                                  = Answered ms r)) ->
  fst (get_auth_url w) = Settled GET_AUTH_URL_TIMEOUT (inr PromiseTimeout).
Proof.
  assert (Hlate : forall (A : Type) (ms ms' : N) (r : A + reason),
             (GET_AUTH_URL_TIMEOUT <= ms)%N ->
             (if (ms + ms' <? GET_AUTH_URL_TIMEOUT)%N
              then Settled (ms + ms') r
              else Settled GET_AUTH_URL_TIMEOUT (inr PromiseTimeout))
             = Settled GET_AUTH_URL_TIMEOUT (inr PromiseTimeout)).
  { intros A ms ms' r Hle.
    destruct (ms + ms' <? GET_AUTH_URL_TIMEOUT)%N eqn:E; [|reflexivity].
    apply N.ltb_lt in E. lia. }
  intros H.
  unfold getAuthUrl, timeoutPromise, andThen.
  rewrite fetch_run. fold (auth_request this).
  destruct H as [Hs|[ms [Hlt [Hs|[r Hs]]]]]; rewrite Hs; cbn [fst];
    try (assert (Hle : (GET_AUTH_URL_TIMEOUT <= ms)%N) by lia).
  - reflexivity.
  - apply N.ltb_ge in Hle. now rewrite Hle.
  - unfold response_text.
    destruct (body r) as [body_|]; cbn.
    + unfold parse_xml.
      destruct (parseXML body_) as [xml|]; cbn.
      * destruct (strict_eqb _ _); cbn; rewrite N.add_0_r;
          apply N.ltb_ge in Hle; now rewrite Hle.
      * now apply Hlate.
    + now apply Hlate.
Qed.

(** C7. On an envelope with status ok answered within the timeout,
    [getAuthUrl] stores the token parsed from the envelope, clears the
    stored sessionID, and resolves with the authorization URL carrying that
    token as its [token=] parameter; on an envelope with another status it
    stores a null token and rejects; and in every case the promise settles
    no later than 10000 ms after the call, rejecting with the timeout error
    when the answer comes after 10000 ms or never. *)
Theorem getAuthUrl_spec (w : World) :
  (forall (ms : N) (r : Response) (body_ : string) (xml : jq),
      server (sent w) (auth_request this) = Answered ms r ->
      body r = Some body_ ->
      parseXML body_ = Some xml ->
      (ms < 10000)%N ->
      (attr "status" (find "lfm" xml) = VStr "ok" ->
       get_auth_url w
       = (Settled ms
            (inl (authUrl this ++ "?api_key=" ++ apiKey this ++ "&token="
                    ++ text (find "token" xml))),
          {| storage := {| token := VStr (text (find "token" xml));
                           sessionID := VNull;
                           sessionName := sessionName (storage w) |};
             sent := List.app (sent w) [auth_request this] |}))
      /\ (attr "status" (find "lfm" xml) <> VStr "ok" ->
          get_auth_url w
          = (Settled ms (inr NoReason),
             {| storage := {| token := VNull;
                              sessionID := sessionID (storage w);
                              sessionName := sessionName (storage w) |};
                sent := List.app (sent w) [auth_request this] |})))
  /\ (exists (ms : N) (r : string + reason),
         fst (get_auth_url w) = Settled ms r /\ (ms <= 10000)%N)
  /\ (server (sent w) (auth_request this) = Silent
      \/ (exists ms, (10000 < ms)%N
                     /\ (server (sent w) (auth_request this) = Failed ms
                         \/ exists r, server (sent w) (auth_request this)
                                      = Answered ms r)) ->
      fst (get_auth_url w) = Settled 10000 (inr PromiseTimeout)).
Proof.
  split; [|split].
  - intros ms r body_ xml Hsrv Hbody Hxml Hms.
    assert (Hlt : (ms <? GET_AUTH_URL_TIMEOUT)%N = true)
      by now apply N.ltb_lt.
    split; intros Hst.
    + rewrite (getAuthUrl_ok w ms r body_ xml) by assumption.
      now rewrite Hlt.
    + rewrite (getAuthUrl_not_ok w ms r body_ xml) by assumption.
      now rewrite Hlt.
  - apply (timeoutPromise_bounded GET_AUTH_URL_TIMEOUT).
  - apply getAuthUrl_late.
Qed.

(** *** doRequest and processResponse *)

Local Abbreviation do_request := (doRequest MD5 parseXML server this).

(** What [doRequest] settles with, by the answer of the remote end. *)
Lemma doRequest_run (method_ : string) (params : object) (signed : bool)
      (w : World) :
  do_request method_ params signed w
  = (match server (sent w) (api_request MD5 this method_ params signed) with
     | Failed ms => Settled ms (inr (Svc OtherError))
     | Answered ms r =>
         match body r with
         | Some body_ =>
             match parseXML body_ with
             | Some doc => Settled ms (inl doc)
             | None => Settled ms (inr (Svc OtherError))
             end
         | None => Settled ms (inr (Svc OtherError))
         end
     | Silent => Never
     end,
     logged w (api_request MD5 this method_ params signed)).
Proof.
  unfold doRequest, orCatch, andThen.
  rewrite fetch_run. fold (api_request MD5 this method_ params signed).
  destruct (server (sent w) _) as [ms|ms r|]; cbn.
  - now rewrite N.add_0_r.
  - unfold response_text.
    destruct (body r) as [body_|]; cbn.
    + unfold parse_xml.
      destruct (parseXML body_) as [doc|]; cbn; now rewrite !N.add_0_r.
    + now rewrite !N.add_0_r.
  - reflexivity.
Qed.

(** C6 (amended). When the network call fails, when the body of the answer
    cannot be read, or when the body does not parse as XML, the promise of
    [doRequest] rejects with OtherError; every rejection of [doRequest] is
    OtherError, so that no raw network or parse exception reaches the
    caller; an answer whose body parses as XML resolves the promise with
    the parsed document whatever its HTTP status. *)
Theorem doRequest_failures (method_ : string) (params : object)
        (signed : bool) (w : World) :
  let req := api_request MD5 this method_ params signed in
  (forall ms, server (sent w) req = Failed ms ->
              fst (do_request method_ params signed w)
              = Settled ms (inr (Svc OtherError)))
  /\ (forall ms r, server (sent w) req = Answered ms r ->
                   body r = None ->
                   fst (do_request method_ params signed w)
                   = Settled ms (inr (Svc OtherError)))
  /\ (forall ms r body_, server (sent w) req = Answered ms r ->
                         body r = Some body_ ->
                         parseXML body_ = None ->
                         fst (do_request method_ params signed w)
                         = Settled ms (inr (Svc OtherError)))
  /\ (forall ms e, fst (do_request method_ params signed w)
                   = Settled ms (inr e) ->
                   e = Svc OtherError /\ is_raw_exception e = false)
  /\ (forall ms r body_ doc, server (sent w) req = Answered ms r ->
                             body r = Some body_ ->
                             parseXML body_ = Some doc ->
                             fst (do_request method_ params signed w)
                             = Settled ms (inl doc)).
Proof.
  intros req. rewrite doRequest_run. fold req. cbn [fst].
  repeat split.
  - intros ms H. now rewrite H.
  - intros ms r H Hb. now rewrite H, Hb.
  - intros ms r body_ H Hb Hp. now rewrite H, Hb, Hp.
  - destruct (server (sent w) req) as [ms'|ms' r|];
      [| destruct (body r) as [body_|];
         [destruct (parseXML body_) as [doc|]|] |];
      congruence.
  - destruct (server (sent w) req) as [ms'|ms' r|];
      [| destruct (body r) as [body_|];
         [destruct (parseXML body_) as [doc|]|] |];
      inversion H; reflexivity.
  - intros ms r body_ doc H Hb Hp. now rewrite H, Hb, Hp.
Qed.

(** C5. [processResponse] yields OtherError whenever the status attribute
    of the envelope is not the string ok, yields Ok exactly when it is, and
    yields nothing else; the HTTP status of the answer plays no part, so an
    envelope delivered by a successful call is judged the same way. *)
Theorem processResponse_spec (doc : jq) :
  (attr "status" (find "lfm" doc) <> VStr "ok" ->
   processResponse doc = OtherError)
  /\ (processResponse doc = Ok <-> attr "status" (find "lfm" doc) = VStr "ok")
  /\ (processResponse doc = Ok \/ processResponse doc = OtherError)
  /\ (forall (method_ : string) (params : object) (signed : bool)
             (w : World) (ms : N),
         fst (do_request method_ params signed w) = Settled ms (inl doc) ->
         attr "status" (find "lfm" doc) <> VStr "ok" ->
         fst ((d <- do_request method_ params signed ;;
               resolve (processResponse d)) w)
         = Settled ms (inl OtherError)).
Proof.
  unfold processResponse.
  destruct (strict_eqb (attr "status" (find "lfm" doc)) (VStr "ok")) eqn:E;
    cbn [negb].
  - apply strict_eqb_eq in E. repeat split; try congruence; auto.
  - apply strict_eqb_neq in E. repeat split; try congruence; auto.
    intros method_ params signed w ms Hrun _.
    unfold andThen.
    destruct (do_request method_ params signed w) as [s w1].
    simpl in Hrun. subst s. cbn. unfold processResponse.
    apply strict_eqb_neq in E. rewrite E. cbn. now rewrite N.add_0_r.
Qed.

(** *** scrobble *)

Local Abbreviation scrobble_ := (scrobble MD5 parseXML parseJSON server this).

Lemma doRequest_world (method_ : string) (params : object) (signed : bool)
      (w : World) :
  snd (do_request method_ params signed w)
  = logged w (api_request MD5 this method_ params signed).
Proof. now rewrite doRequest_run. Qed.

(** A call made of [getSession], then [doRequest]: the world it leaves. *)
Lemma session_call_world (params : value -> object) (w : World) :
  snd ((s <- get_session ;;
        doc <- do_request "POST" (params (sd_sessionID s)) true ;;
        resolve (processResponse doc)) w)
  = match get_session w with
    | (Settled _ (inl s), w1) =>
        logged w1 (api_request MD5 this "POST" (params (sd_sessionID s)) true)
    | (_, w1) => w1
    end.
Proof.
  unfold andThen at 1.
  destruct (get_session w) as [[ms [s|e]|] w1]; try reflexivity.
  unfold andThen.
  pose proof (doRequest_world "POST" (params (sd_sessionID s)) true w1) as Hw.
  destruct (do_request "POST" (params (sd_sessionID s)) true w1)
    as [[ms' [doc|e]|] w2]; simpl in Hw; subst w2; reflexivity.
Qed.

(** C8. Once [getSession] has resolved with a session, [scrobble] issues
    one POST request whose query string is built from the parameter object
    holding method=track.scrobble, track[0], artist[0], timestamp[0] taken
    from the song, sk set to the sessionID and the signature api_sig of
    the other parameters; the object has the key album[0] exactly when the
    song has an album, and then with the album as value. *)
Theorem scrobble_request (song : Song) (w w1 : World) (ms : N)
        (s : SessionData) :
  get_session w = (Settled ms (inl s), w1) ->
  let params :=
    request_params MD5 this (scrobble_params this song (sd_sessionID s)) true in
  sent (snd (scrobble_ song w))
  = List.app (sent w1)
      [{| url := apiUrl this ++ "?" ++ createQueryString params;
          method := Some "POST" |}]
  /\ get params "method" = VStr "track.scrobble"
  /\ get params "track[0]" = JS.or (processed_track song) (parsed_track song)
  /\ get params "artist[0]"
     = JS.or (processed_artist song) (parsed_artist song)
  /\ get params "timestamp[0]" = metadata_startTimestamp song
  /\ get params "sk" = sd_sessionID s
  /\ get params "api_sig"
     = VStr (generateSign MD5 this
               (JS.set (scrobble_params this song (sd_sessionID s))
                       "api_key" (VStr (apiKey this))))
  /\ has params "album[0]" = truthy (getAlbum song)
  /\ (truthy (getAlbum song) = true ->
      get params "album[0]" = getAlbum song)
  /\ keys params
     = List.app ["method"; "timestamp[0]"; "track[0]"; "artist[0]";
                 "api_key"; "sk"]
         (List.app (if truthy (getAlbum song) then ["album[0]"] else [])
                   ["api_sig"]).
Proof.
  intros Hs params.
  split.
  - unfold scrobble.
    rewrite (session_call_world (scrobble_params this song) w), Hs.
    reflexivity.
  - subst params. unfold request_params, scrobble_params.
    destruct (truthy (getAlbum song)); repeat split; try reflexivity;
      intros; try reflexivity; discriminate.
Qed.

(** *** The credential invariant *)

Lemma getSession_store (w : World) :
  storage (snd (get_session w)) = storage w
  \/ token (storage (snd (get_session w))) = VNull.
Proof.
  destruct (truthy (token (storage w))) eqn:Htok.
  - rewrite (getSession_trade w Htok).
    pose proof (tradeTokenForSession_world (token (storage w)) w) as Hw.
    destruct (trade (token (storage w)) w) as [[ms [[s|]|e]|] w1];
      simpl in Hw; subst w1; cbn; auto.
  - rewrite (getSession_no_token w Htok). now left.
Qed.

Lemma session_call_store (params : value -> object) (w : World) :
  storage (snd ((s <- get_session ;;
                 doc <- do_request "POST" (params (sd_sessionID s)) true ;;
                 resolve (processResponse doc)) w))
  = storage (snd (get_session w)).
Proof.
  rewrite session_call_world.
  destruct (get_session w) as [[ms [s|e]|] w1]; reflexivity.
Qed.

Lemma one_active_written (d d' : Data) :
  one_active d ->
  d' = d \/ sessionID d' = VNull \/ token d' = VNull ->
  one_active d'.
Proof.
  unfold one_active. intros Hd [->|[H|H]]; [assumption | right | left];
    now rewrite H.
Qed.

Lemma getSession_one_active (w : World) :
  one_active (storage w) -> one_active (storage (snd (get_session w))).
Proof.
  intros Hd. apply (one_active_written (storage w)); [assumption|].
  destruct (getSession_store w) as [H|H]; auto.
Qed.

(** C4. Every operation that writes credentials keeps the invariant that
    token and sessionID are not both non-null: the store [getAuthUrl]
    leaves is the one it found or has a null sessionID (token stored) or a
    null token (failure), the store [getSession] leaves is the one it found
    or has a null token (trade success) or all fields null (trade failure);
    hence every store reachable from the empty one by any sequence of
    calls satisfies the invariant. *)
Theorem credentials_invariant :
  (forall w : World,
      storage (snd (get_auth_url w)) = storage w
      \/ sessionID (storage (snd (get_auth_url w))) = VNull
      \/ token (storage (snd (get_auth_url w))) = VNull)
  /\ (forall w : World,
        storage (snd (get_session w)) = storage w
        \/ token (storage (snd (get_session w))) = VNull)
  /\ (forall w : World,
        one_active (storage w) ->
        one_active (storage (snd (get_auth_url w)))
        /\ one_active (storage (snd (get_session w))))
  /\ (forall w : World,
        reachable MD5 parseXML parseJSON server this w ->
        one_active (storage w)).
Proof.
  split; [exact getAuthUrl_store|].
  split; [exact getSession_store|].
  split.
  - intros w Hd. split.
    + apply (one_active_written (storage w)); [assumption|].
      apply getAuthUrl_store.
    + now apply getSession_one_active.
  - intros w Hr.
    induction Hr as [|w _ IH|w _ IH|song w _ IH|song w _ IH|song l w _ IH].
    + left. reflexivity.
    + apply (one_active_written (storage w)); [assumption|].
      apply getAuthUrl_store.
    + now apply getSession_one_active.
    + unfold sendNowPlaying.
      rewrite (session_call_store (sendNowPlaying_params this song)).
      now apply getSession_one_active.
    + unfold scrobble.
      rewrite (session_call_store (scrobble_params this song)).
      now apply getSession_one_active.
    + unfold toggleLove.
      rewrite (session_call_store (toggleLove_params this song l)).
      now apply getSession_one_active.
Qed.

End Properties.

(* ================================================================= *)
(** ** The properties at work on the concrete service *)

Ltac lex_sorted :=
  repeat first [ apply leb_lex_le; reflexivity | constructor ].

Lemma generateSign_spec_witness :
  generateSign demo_md5 demo_options demo_params
  = "md5:api_keyKEYmethodauth.getsessiontokenabc123SECRET"
  /\ generateSign demo_md5 demo_options demo_params_reordered
     = generateSign demo_md5 demo_options demo_params.
Proof.
  destruct (generateSign_spec demo_md5 demo_options demo_params)
    as [_ [Href Hperm]].
  split.
  - rewrite (Href ["api_key"; "format"; "method"; "token"]).
    + reflexivity.
    + apply Permutation_sym. simpl.
      apply (Permutation_cons_app ["api_key"; "format"] ["token"] "method").
      apply (Permutation_cons_app ["api_key"] ["token"] "format").
      apply perm_swap.
    + lex_sorted.
  - apply Hperm.
    + unfold wf. simpl.
      repeat constructor; simpl; intuition discriminate.
    + apply perm_swap.
Defined.

Example sign_skips_callback :
  generateSign demo_md5 demo_options
    [("callback", VStr "cb"); ("b", VStr "2"); ("a", VNum 1)]
  = "md5:a1b2SECRET".
Proof. reflexivity. Qed.

(** An envelope with status ok and no token element leaves the empty string
    as stored token. *)
Example getAuthUrl_stores_empty_token :
  snd (getAuthUrl demo_parseXML (always (answer 120 200 empty_ok_xml))
         demo_options (world_of empty_data))
  = {| storage := {| token := VStr EmptyString; sessionID := VNull;
                     sessionName := VUndefined |};
       sent := [auth_request demo_options] |}.
Proof. reflexivity. Qed.

(** C2, as stated, fails: a stored token that is not null, the empty string,
    is not traded; the remote end is never asked. *)
Lemma getSession_empty_token_no_trade :
  token (storage empty_token_world) <> VNull
  /\ nullish (token (storage empty_token_world)) = false
  /\ getSession demo_md5 demo_parseJSON (always (answer 120 200 session_json))
       demo_options empty_token_world
     = (Settled 0 (inr (Svc AuthError)), empty_token_world)
  /\ sent (snd (getSession demo_md5 demo_parseJSON
                  (always (answer 120 200 session_json))
                  demo_options empty_token_world)) = [].
Proof.
  split; [discriminate|]. split; [reflexivity|]. split; reflexivity.
Qed.

Lemma getSession_token_trade_witness :
  (fst (getSession demo_md5 demo_parseJSON
          (always (answer 120 200 session_json)) demo_options token_world)
   = Settled 120 (inl (session_data demo_session))
   /\ storage (snd (getSession demo_md5 demo_parseJSON
                      (always (answer 120 200 session_json)) demo_options
                      token_world))
      = {| token := VNull; sessionID := VStr "sess1";
           sessionName := VStr "u1" |})
  /\ (fst (getSession demo_md5 demo_parseJSON
             (always (answer 80 403 error_json)) demo_options token_world)
      = Settled 80 (inr (Svc AuthError))
      /\ storage (snd (getSession demo_md5 demo_parseJSON
                         (always (answer 80 403 error_json)) demo_options
                         token_world))
         = all_null)
  /\ getSession demo_md5 demo_parseJSON (always Silent) demo_options
       (world_of empty_data)
     = (Settled 0 (inr (Svc AuthError)), world_of empty_data).
Proof.
  split; [|split].
  - destruct (getSession_token_trade demo_md5 demo_parseJSON
                (always (answer 120 200 session_json)) demo_options
                token_world) as [Htrade _].
    destruct (Htrade eq_refl) as [_ [Hok _]].
    apply (Hok 120%N demo_session). reflexivity.
  - destruct (getSession_token_trade demo_md5 demo_parseJSON
                (always (answer 80 403 error_json)) demo_options
                token_world) as [Htrade _].
    destruct (Htrade eq_refl) as [_ [_ Hfail]].
    apply (Hfail 80%N). right. reflexivity.
  - destruct (getSession_token_trade demo_md5 demo_parseJSON
                (always Silent) demo_options (world_of empty_data))
      as [_ Hnone].
    apply Hnone; reflexivity.
Defined.

Lemma getSession_cached_witness :
  getSession demo_md5 demo_parseJSON (always Silent) demo_options session_world
  = (Settled 0 (inl (cached_session (storage session_world))), session_world)
  /\ repeat_call
       (getSession demo_md5 demo_parseJSON (always Silent) demo_options)
       3 session_world
     = (repeat (Settled 0 (inl (cached_session (storage session_world)))) 3,
        session_world).
Proof.
  destruct (getSession_cached demo_md5 demo_parseJSON (always Silent)
              demo_options session_world eq_refl eq_refl) as [Hone Hmany].
  split; [exact Hone | exact (Hmany 3)].
Defined.

(** A trade whose reply carries an empty session key stores the empty
    string as sessionID. *)
Example getSession_stores_empty_sessionID :
  snd (getSession demo_md5 demo_parseJSON_empty_key
         (always (answer 90 200 empty_key_json)) demo_options token_world)
  = {| storage := storage empty_session_world;
       sent := [trade_request demo_md5 demo_options (VStr "abc123")] |}.
Proof. reflexivity. Qed.

(** C3, as stated, fails: with a stored sessionID that is not null, the
    empty string, and a null token, [getSession] rejects with AuthError
    instead of resolving with the stored session. *)
Lemma getSession_empty_sessionID_rejects :
  sessionID (storage empty_session_world) <> VNull
  /\ nullish (sessionID (storage empty_session_world)) = false
  /\ token (storage empty_session_world) = VNull
  /\ getSession demo_md5 demo_parseJSON (always (answer 120 200 session_json))
       demo_options empty_session_world
     = (Settled 0 (inr (Svc AuthError)), empty_session_world).
Proof.
  split; [discriminate|]. split; [reflexivity|]. split; reflexivity.
Qed.

(** C10, as stated, fails: with the empty string as stored token next to a
    stored session, [getSession] answers with the cached session and trades
    nothing. *)
Lemma getSession_empty_token_returns_cached :
  token (storage empty_token_session_world) <> VNull
  /\ sessionID (storage empty_token_session_world) <> VNull
  /\ getSession demo_md5 demo_parseJSON (always (answer 120 200 session_json))
       demo_options empty_token_session_world
     = (Settled 0 (inl {| sd_sessionID := VStr "sess1";
                          sd_sessionName := VStr "u1" |}),
        empty_token_session_world).
Proof.
  split; [discriminate|]. split; [discriminate | reflexivity].
Qed.

Lemma getSession_token_beats_session_witness :
  getSession demo_md5 demo_parseJSON (always (answer 80 403 error_json))
    demo_options
    (world_of {| token := VStr "abc123"; sessionID := VStr "old";
                 sessionName := VStr "u0" |})
  = (Settled 80 (inr (Svc AuthError)),
     {| storage := all_null;
        sent := [trade_request demo_md5 demo_options (VStr "abc123")] |}).
Proof.
  destruct (getSession_token_beats_session demo_md5 demo_parseJSON
              (always (answer 80 403 error_json)) demo_options
              (world_of {| token := VStr "abc123"; sessionID := VStr "old";
                           sessionName := VStr "u0" |})
              eq_refl eq_refl) as [_ [_ Hfail]].
  apply (Hfail 80%N). right. reflexivity.
Defined.

Lemma credentials_invariant_witness :
  one_active
    (storage
       (snd (getSession demo_md5 demo_parseJSON demo_server demo_options
               (snd (getAuthUrl demo_parseXML demo_server demo_options
                       (world_of empty_data))))))
  /\ one_active
       (storage (snd (getAuthUrl demo_parseXML demo_server demo_options
                        session_world))).
Proof.
  destruct (credentials_invariant demo_md5 demo_parseXML demo_parseJSON
              demo_server demo_options) as [_ [_ [Hstep Hreach]]].
  split.
  - apply Hreach. apply reach_getSession, reach_getAuthUrl, reach_fresh.
  - apply (Hstep session_world). left. reflexivity.
Defined.

(** The handshake of the specification: a fresh store, [getAuthUrl], then
    [getSession]. *)
Example handshake_scenario :
  getAuthUrl demo_parseXML demo_server demo_options (world_of empty_data)
  = (Settled 120 (inl "https://www.example/api/auth/?api_key=KEY&token=abc123"),
     {| storage := {| token := VStr "abc123"; sessionID := VNull;
                      sessionName := VUndefined |};
        sent := [auth_request demo_options] |})
  /\ storage
       (snd (getSession demo_md5 demo_parseJSON demo_server demo_options
               (snd (getAuthUrl demo_parseXML demo_server demo_options
                       (world_of empty_data)))))
     = {| token := VNull; sessionID := VStr "sess1"; sessionName := VStr "u1" |}.
Proof. split; reflexivity. Qed.

Lemma processResponse_spec_witness :
  processResponse failed_doc = OtherError
  /\ processResponse token_ok_doc = Ok
  /\ fst ((d <- doRequest demo_md5 demo_parseXML
                  (always (answer 60 200 failed_xml)) demo_options
                  "POST" [] true ;;
           resolve (processResponse d)) session_world)
     = Settled 60 (inl OtherError).
Proof.
  split; [|split].
  - apply (processResponse_spec demo_md5 demo_parseXML demo_server
             demo_options failed_doc).
    discriminate.
  - apply (processResponse_spec demo_md5 demo_parseXML demo_server
             demo_options token_ok_doc).
    reflexivity.
  - apply (processResponse_spec demo_md5 demo_parseXML
             (always (answer 60 200 failed_xml)) demo_options failed_doc).
    + reflexivity.
    + discriminate.
Defined.

(** C6, as stated, fails: an answer with HTTP status 403 whose body is an
    XML envelope resolves the promise of [doRequest]. *)
Lemma doRequest_non_2xx_resolves :
  always (answer 120 403 failed_xml) []
    (api_request demo_md5 demo_options "POST" [("method", VStr "track.love")] true)
  = Answered 120 {| status := 403; body := Some failed_xml |}
  /\ doRequest demo_md5 demo_parseXML (always (answer 120 403 failed_xml))
       demo_options "POST" [("method", VStr "track.love")] true
       (world_of empty_data)
     = (Settled 120 (inl failed_doc),
        logged (world_of empty_data)
          (api_request demo_md5 demo_options "POST"
             [("method", VStr "track.love")] true)).
Proof. split; reflexivity. Qed.

Lemma doRequest_failures_witness :
  fst (doRequest demo_md5 demo_parseXML (always (Failed 30)) demo_options
         "POST" [("method", VStr "track.love")] true (world_of empty_data))
  = Settled 30 (inr (Svc OtherError))
  /\ fst (doRequest demo_md5 demo_parseXML
            (always (Answered 40 {| status := 200; body := None |}))
            demo_options "POST" [] false (world_of empty_data))
     = Settled 40 (inr (Svc OtherError))
  /\ fst (doRequest demo_md5 demo_parseXML (always (answer 50 200 "<lfm"))
            demo_options "POST" [] true (world_of empty_data))
     = Settled 50 (inr (Svc OtherError))
  /\ fst (doRequest demo_md5 demo_parseXML (always (answer 120 403 failed_xml))
            demo_options "POST" [] true (world_of empty_data))
     = Settled 120 (inl failed_doc).
Proof.
  split; [|split; [|split]].
  - destruct (doRequest_failures demo_md5 demo_parseXML (always (Failed 30))
                demo_options "POST" [("method", VStr "track.love")] true
                (world_of empty_data)) as [Hnet _].
    apply (Hnet 30%N). reflexivity.
  - destruct (doRequest_failures demo_md5 demo_parseXML
                (always (Answered 40 {| status := 200; body := None |}))
                demo_options "POST" [] false (world_of empty_data))
      as [_ [Hbody _]].
    apply (Hbody 40%N {| status := 200; body := None |}); reflexivity.
  - destruct (doRequest_failures demo_md5 demo_parseXML
                (always (answer 50 200 "<lfm")) demo_options "POST" [] true
                (world_of empty_data)) as [_ [_ [Hparse _]]].
    apply (Hparse 50%N {| status := 200; body := Some "<lfm" |} "<lfm");
      reflexivity.
  - destruct (doRequest_failures demo_md5 demo_parseXML
                (always (answer 120 403 failed_xml)) demo_options "POST" []
                true (world_of empty_data)) as [_ [_ [_ [_ Hdoc]]]].
    apply (Hdoc 120%N {| status := 403; body := Some failed_xml |} failed_xml
             failed_doc); reflexivity.
Defined.

Lemma getAuthUrl_spec_witness :
  getAuthUrl demo_parseXML demo_server demo_options (world_of empty_data)
  = (Settled 120 (inl "https://www.example/api/auth/?api_key=KEY&token=abc123"),
     {| storage := {| token := VStr "abc123"; sessionID := VNull;
                      sessionName := VUndefined |};
        sent := [auth_request demo_options] |})
  /\ getAuthUrl demo_parseXML (always (answer 70 200 failed_xml)) demo_options
       token_world
     = (Settled 70 (inr NoReason),
        {| storage := {| token := VNull; sessionID := VNull;
                         sessionName := VNull |};
           sent := [auth_request demo_options] |})
  /\ fst (getAuthUrl demo_parseXML (always (answer 15000 200 token_ok_xml))
            demo_options (world_of empty_data))
     = Settled 10000 (inr PromiseTimeout)
  /\ fst (getAuthUrl demo_parseXML (always Silent) demo_options
            (world_of empty_data))
     = Settled 10000 (inr PromiseTimeout).
Proof.
  split; [|split; [|split]].
  - destruct (getAuthUrl_spec demo_parseXML demo_server demo_options
                (world_of empty_data)) as [Hanswer _].
    apply (Hanswer 120%N {| status := 200; body := Some token_ok_xml |}
             token_ok_xml token_ok_doc); reflexivity.
  - destruct (getAuthUrl_spec demo_parseXML (always (answer 70 200 failed_xml))
                demo_options token_world) as [Hanswer _].
    apply (Hanswer 70%N {| status := 200; body := Some failed_xml |}
             failed_xml failed_doc); try reflexivity.
    discriminate.
  - destruct (getAuthUrl_spec demo_parseXML
                (always (answer 15000 200 token_ok_xml)) demo_options
                (world_of empty_data)) as [_ [_ Hlate]].
    apply Hlate. right. exists 15000%N. split; [lia|].
    right. eexists. reflexivity.
  - destruct (getAuthUrl_spec demo_parseXML (always Silent) demo_options
                (world_of empty_data)) as [_ [_ Hlate]].
    apply Hlate. left. reflexivity.
Defined.

(** An answer that comes after the timer has fired is still written to the
    store, although the promise has been rejected. *)
Example getAuthUrl_late_answer_still_stored :
  getAuthUrl demo_parseXML (always (answer 15000 200 token_ok_xml))
    demo_options (world_of empty_data)
  = (Settled 10000 (inr PromiseTimeout),
     {| storage := {| token := VStr "abc123"; sessionID := VNull;
                      sessionName := VUndefined |};
        sent := [auth_request demo_options] |}).
Proof. reflexivity. Qed.

Lemma scrobble_request_witness :
  sent (snd (scrobble demo_md5 demo_parseXML demo_parseJSON demo_server
               demo_options demo_song session_world))
  = [{| url := "https://ws.example/2.0/?method=track.scrobble&timestamp[0]=1000&track[0]=T&artist[0]=A&api_key=KEY&sk=sess1&api_sig=md5%3Aapi_keyKEYartist%5B0%5DAmethodtrack.scrobblesksess1timestamp%5B0%5D1000track%5B0%5DTSECRET";
        method := Some "POST" |}]
  /\ has (request_params demo_md5 demo_options
            (scrobble_params demo_options demo_song (VStr "sess1")) true)
         "album[0]" = false
  /\ get (request_params demo_md5 demo_options
            (scrobble_params demo_options demo_song_with_album (VStr "sess1"))
            true)
         "album[0]" = VStr "LP".
Proof.
  destruct (scrobble_request demo_md5 demo_parseXML demo_parseJSON demo_server
              demo_options demo_song session_world session_world 0%N
              (cached_session (storage session_world)) eq_refl)
    as [Hsent [_ [_ [_ [_ [_ [_ [Halbum _]]]]]]]].
  destruct (scrobble_request demo_md5 demo_parseXML demo_parseJSON demo_server
              demo_options demo_song_with_album session_world session_world
              0%N (cached_session (storage session_world)) eq_refl)
    as [_ [_ [_ [_ [_ [_ [_ [_ [Hwith _]]]]]]]]].
  split; [|split].
  - rewrite Hsent. reflexivity.
  - exact Halbum.
  - exact (Hwith eq_refl).
Defined.

(* ================================================================= *)
(** ** Further properties: parameter objects, query strings, signatures *)

Lemma get_set_same (o : object) (k : string) (v : value) :
  get (JS.set o k v) k = v.
Proof.
  induction o as [|[k' v'] o IH]; simpl.
  - now rewrite String.eqb_refl.
  - destruct (k' =? k) eqn:E; simpl.
    + now rewrite String.eqb_refl.
    + now rewrite E.
Qed.

Lemma get_set_other (o : object) (k k' : string) (v : value) :
  k <> k' -> get (JS.set o k v) k' = get o k'.
Proof.
  intros Hne. induction o as [|[k0 v0] o IH]; simpl.
  - apply String.eqb_neq in Hne. now rewrite Hne.
  - destruct (String.eqb_spec k0 k) as [->|Hk0]; simpl.
    + apply String.eqb_neq in Hne. now rewrite Hne.
    + now rewrite IH.
Qed.

Lemma has_set_same (o : object) (k : string) (v : value) :
  has (JS.set o k v) k = true.
Proof.
  induction o as [|[k' v'] o IH]; simpl.
  - now rewrite String.eqb_refl.
  - destruct (k' =? k) eqn:E; simpl.
    + now rewrite String.eqb_refl.
    + now rewrite E.
Qed.

Lemma has_set_other (o : object) (k k' : string) (v : value) :
  k <> k' -> has (JS.set o k v) k' = has o k'.
Proof.
  intros Hne. induction o as [|[k0 v0] o IH]; simpl.
  - apply String.eqb_neq in Hne. now rewrite Hne.
  - destruct (String.eqb_spec k0 k) as [->|Hk0]; simpl.
    + apply String.eqb_neq in Hne. now rewrite Hne.
    + now rewrite IH.
Qed.

Lemma has_keys (o : object) (k : string) :
  has o k = true <-> In k (keys o).
Proof.
  induction o as [|[k' v'] o IH]; simpl.
  - split; [discriminate | contradiction].
  - destruct (String.eqb_spec k' k) as [->|Hne].
    + split; auto.
    + rewrite IH. split; [now right | intros [H|H]; [contradiction | assumption]].
Qed.

Lemma set_absent (o : object) (k : string) (v : value) :
  has o k = false -> JS.set o k v = List.app o [(k, v)].
Proof.
  induction o as [|[k' v'] o IH]; simpl; [reflexivity|].
  destruct (k' =? k); [discriminate|].
  intros H. now rewrite IH.
Qed.

(** For a key that is no array index, [JS.set] is the assignment. *)
Lemma assign_non_index (o : object) (k : string) (v : value) :
  array_index k = None -> assign o k v = JS.set o k v.
Proof.
  intros Hk. unfold assign. rewrite Hk.
  destruct (has o k) eqn:Hhas; [reflexivity|].
  symmetry. now apply set_absent.
Qed.

Lemma set_present_keys (o : object) (k : string) (v : value) :
  has o k = true -> keys (JS.set o k v) = keys o.
Proof.
  induction o as [|[k' v'] o IH]; simpl; [discriminate|].
  destruct (String.eqb_spec k' k) as [->|Hne]; simpl.
  - reflexivity.
  - intros H. now rewrite IH.
Qed.

Lemma wf_set (o : object) (k : string) (v : value) :
  wf o -> wf (JS.set o k v).
Proof.
  unfold wf. intros Hwf.
  destruct (has o k) eqn:Hk.
  - now rewrite set_present_keys.
  - rewrite set_absent by assumption.
    unfold keys. rewrite map_app. simpl.
    apply NoDup_rev in Hwf.
    rewrite <- (rev_involutive (List.app (map fst o) [k])).
    apply NoDup_rev. rewrite rev_app_distr. simpl.
    constructor; [|assumption].
    rewrite <- in_rev. intros Hin.
    apply has_keys in Hin. congruence.
Qed.

Lemma set_not_empty (o : object) (k : string) (v : value) :
  JS.set o k v <> [].
Proof.
  destruct o as [|[k' v'] o]; simpl; [discriminate|].
  destruct (k' =? k); discriminate.
Qed.

Lemma concat_app (sep : string) (l1 l2 : list string) :
  l1 <> [] -> l2 <> [] ->
  String.concat sep (List.app l1 l2)
  = String.concat sep l1 ++ sep ++ String.concat sep l2.
Proof.
  intros H1 H2. induction l1 as [|x l1 IH]; [congruence|].
  destruct l1 as [|y l1].
  - destruct l2 as [|z l2]; [congruence|]. reflexivity.
  - change (String.concat sep (List.app (x :: y :: l1) l2))
      with (x ++ sep ++ String.concat sep (List.app (y :: l1) l2)).
    rewrite IH by discriminate.
    change (String.concat sep (x :: y :: l1))
      with (x ++ sep ++ String.concat sep (y :: l1)).
    now rewrite !append_assoc.
Qed.

Lemma createQueryString_append (p q : object) :
  p <> [] -> q <> [] ->
  createQueryString (List.app p q)
  = createQueryString p ++ "&" ++ createQueryString q.
Proof.
  intros Hp Hq.
  rewrite !createQueryString_parts, !join_concat, map_app.
  apply concat_app.
  - destruct p; [congruence | discriminate].
  - destruct q; [congruence | discriminate].
Qed.

(** *** Sorting and filtering commute *)

Lemma Permutation_filter_keep {A : Type} (f : A -> bool) (l l' : list A) :
  Permutation l l' -> Permutation (filter f l) (filter f l').
Proof.
  induction 1 as [|x l l' _ IH|x y l|l l' l'' _ IH1 _ IH2]; simpl.
  - constructor.
  - destruct (f x); [now constructor | assumption].
  - destruct (f x), (f y); try reflexivity. apply perm_swap.
  - now transitivity (filter f l').
Qed.

Lemma StronglySorted_filter_keep (f : string -> bool) (l : list string) :
  StronglySorted lex_le l -> StronglySorted lex_le (filter f l).
Proof.
  induction 1 as [|x l _ IH Hall]; simpl; [constructor|].
  destruct (f x); [|assumption].
  constructor; [assumption|].
  rewrite Forall_forall in *. intros y Hy.
  apply filter_In in Hy. now apply Hall.
Qed.

Lemma sort_filter (f : string -> bool) (l : list string) :
  sort (filter f l) = filter f (sort l).
Proof.
  apply sort_unique.
  - apply Permutation_filter_keep, sort_perm.
  - apply StronglySorted_filter_keep, sort_sorted.
Qed.

Lemma filter_twice {A : Type} (f : A -> bool) (l : list A) :
  filter f (filter f l) = filter f l.
Proof.
  induction l as [|x l IH]; simpl; [reflexivity|].
  destruct (f x) eqn:E; simpl; [rewrite E|]; now rewrite ?IH.
Qed.

(** The mapping without its [format] and [callback] entries. *)
Lemma keys_signed_entries (params : object) :
  keys (filter (fun kv => negb (reserved_key (fst kv))) params)
  = filter (fun k => negb (reserved_key k)) (keys params).
Proof.
  induction params as [|[k v] params IH]; simpl; [reflexivity|].
  destruct (reserved_key k); simpl; now rewrite IH.
Qed.

Lemma get_signed_entries (params : object) (k : string) :
  reserved_key k = false ->
  get (filter (fun kv => negb (reserved_key (fst kv))) params) k
  = get params k.
Proof.
  intros Hk. induction params as [|[k' v'] params IH]; simpl; [reflexivity|].
  destruct (reserved_key k') eqn:Hk'; simpl.
  - destruct (String.eqb_spec k' k) as [->|_]; [congruence | exact IH].
  - now rewrite IH.
Qed.

Lemma set_reserved_signed_entries (params : object) (k : string) (v : value) :
  reserved_key k = true ->
  filter (fun kv => negb (reserved_key (fst kv))) (JS.set params k v)
  = filter (fun kv => negb (reserved_key (fst kv))) params.
Proof.
  intros Hk. induction params as [|[k' v'] params IH]; simpl.
  - now rewrite Hk.
  - destruct (String.eqb_spec k' k) as [->|_]; simpl.
    + now rewrite Hk.
    + now rewrite IH.
Qed.

Lemma generateSign_signed_entries (MD5 : string -> string) (this : Options)
      (params : object) :
  generateSign MD5 this params
  = generateSign MD5 this
      (filter (fun kv => negb (reserved_key (fst kv))) params).
Proof.
  rewrite !generateSign_reference. unfold sign_reference.
  rewrite keys_signed_entries, sort_filter, filter_twice.
  do 3 f_equal. apply map_ext_in. intros k Hk.
  apply filter_In in Hk. destruct Hk as [_ Hk].
  apply negb_true_iff in Hk. now rewrite get_signed_entries.
Qed.

(** X2. The signature does not see the entries [format] and [callback]: it
    is the signature of the mapping without them, and setting either of the
    two keys to any value, present before or not, leaves it unchanged. *)
Theorem generateSign_ignores_reserved (MD5 : string -> string)
        (this : Options) (params : object) :
  generateSign MD5 this params
  = generateSign MD5 this
      (filter (fun kv => negb (reserved_key (fst kv))) params)
  /\ (forall (k : string) (v : value),
        reserved_key k = true ->
        generateSign MD5 this (JS.set params k v)
        = generateSign MD5 this params).
Proof.
  split; [apply generateSign_signed_entries|].
  intros k v Hk.
  rewrite (generateSign_signed_entries MD5 this (JS.set params k v)).
  rewrite set_reserved_signed_entries by assumption.
  symmetry. apply generateSign_signed_entries.
Qed.

(** *** The parameters doRequest sends *)

Lemma request_params_api_key (MD5 : string -> string) (this : Options)
      (params : object) (signed : bool) :
  get (request_params MD5 this params signed) "api_key" = VStr (apiKey this).
Proof.
  unfold request_params. destruct signed.
  - rewrite get_set_other by discriminate. apply get_set_same.
  - apply get_set_same.
Qed.

Lemma request_params_other (MD5 : string -> string) (this : Options)
      (params : object) (signed : bool) (k : string) :
  k <> "api_key" -> k <> "api_sig" ->
  get (request_params MD5 this params signed) k = get params k
  /\ has (request_params MD5 this params signed) k = has params k.
Proof.
  intros Hkey Hsig. unfold request_params. destruct signed.
  - rewrite get_set_other, has_set_other by congruence.
    rewrite get_set_other, has_set_other by congruence. now split.
  - rewrite get_set_other, has_set_other by congruence. now split.
Qed.

(** X3. The parameter object [doRequest] puts on the wire always carries the
    API key of the instance under [api_key], whatever the caller passed
    there; every parameter other than [api_key] and [api_sig] is the
    caller's; a signed call sets [api_sig] to the signature of the object
    with the key in place, an unsigned call leaves [api_sig] as the caller
    had it; and an object without repeated keys stays so. *)
Theorem request_params_spec (MD5 : string -> string) (this : Options)
        (params : object) (signed : bool) :
  get (request_params MD5 this params signed) "api_key" = VStr (apiKey this)
  /\ (forall k : string,
        k <> "api_key" -> k <> "api_sig" ->
        get (request_params MD5 this params signed) k = get params k
        /\ has (request_params MD5 this params signed) k = has params k)
  /\ (signed = true ->
      get (request_params MD5 this params signed) "api_sig"
      = VStr (generateSign MD5 this
                (JS.set params "api_key" (VStr (apiKey this)))))
  /\ (signed = false ->
      get (request_params MD5 this params signed) "api_sig"
      = get params "api_sig"
      /\ has (request_params MD5 this params signed) "api_sig"
         = has params "api_sig")
  /\ (wf params -> wf (request_params MD5 this params signed)).
Proof.
  split; [apply request_params_api_key|].
  split; [intros k; apply request_params_other|].
  split; [|split].
  - intros ->. unfold request_params. apply get_set_same.
  - intros ->. unfold request_params.
    rewrite get_set_other, has_set_other by discriminate. now split.
  - intros Hwf. unfold request_params.
    destruct signed; repeat apply wf_set; assumption.
Qed.

(** X4. Signing only appends: when the caller's parameters have no
    [api_sig] of their own, the URL of the signed request is the URL of the
    unsigned request followed by [&api_sig=] and the URL-encoded signature
    of the parameters; the HTTP method is the same. *)
Theorem signed_request_appends_signature (MD5 : string -> string)
        (this : Options) (method_ : string) (params : object) :
  has params "api_sig" = false ->
  url (api_request MD5 this method_ params true)
  = url (api_request MD5 this method_ params false) ++ "&api_sig="
      ++ encodeURIComponent
           (generateSign MD5 this
              (JS.set params "api_key" (VStr (apiKey this))))
  /\ method (api_request MD5 this method_ params true)
     = method (api_request MD5 this method_ params false).
Proof.
  intros Hsig. split; [|reflexivity].
  unfold api_request, request_params. cbn [url].
  assert (Habs : has (JS.set params "api_key" (VStr (apiKey this))) "api_sig"
                 = false)
    by (rewrite has_set_other by discriminate; assumption).
  rewrite (set_absent _ _ _ Habs).
  rewrite createQueryString_append by (try apply set_not_empty; discriminate).
  rewrite (createQueryString_parts [_]), join_concat.
  cbn [map String.concat query_part fst snd toString].
  rewrite !append_assoc. reflexivity.
Qed.

(* ================================================================= *)
(** ** Further properties: sessions, handshake and API calls *)

Lemma later_zero {A : Type} (s : settlement A) : later 0 s = s.
Proof. destruct s; reflexivity. Qed.

Section MoreProperties.

Variable MD5 : string -> string.
Variable parseXML : string -> option jq.
Variable parseJSON : string -> option Reply.
Variable server : list Request -> Request -> FetchResult.
Variable this : Options.

Local Abbreviation trade := (tradeTokenForSession MD5 parseJSON server this).
Local Abbreviation get_session := (getSession MD5 parseJSON server this).
Local Abbreviation get_auth_url := (getAuthUrl parseXML server this).
Local Abbreviation do_request := (doRequest MD5 parseXML server this).

(** *** tradeTokenForSession *)

Lemma trade_run (tok : value) (w : World) :
  trade tok w
  = (match server (sent w) (trade_request MD5 this tok) with
     | Failed ms =>
         Settled ms
           (inr (Wrapped (label this ++ " auth.tradeTokenForSession failed: ")
                   NetworkError))
     | Answered ms r =>
         match body r with
         | Some body_ =>
             match parseJSON body_ with
             | Some (ReplyData session) => Settled ms (inl session)
             | Some ReplyNull =>
                 Settled ms
                   (inr (Wrapped
                           (label this ++ " auth.tradeTokenForSession failed: ")
                           TypeError))
             | None =>
                 Settled ms
                   (inr (Wrapped
                           (label this ++ " auth.tradeTokenForSession failed: ")
                           JsonError))
             end
         | None =>
             Settled ms
               (inr (Wrapped
                       (label this ++ " auth.tradeTokenForSession failed: ")
                       BodyError))
         end
     | Silent => Never
     end, logged w (trade_request MD5 this tok)).
Proof.
  unfold tradeTokenForSession, orCatch, andThen.
  rewrite fetch_run.
  fold (trade_params this tok). fold (trade_request MD5 this tok).
  destruct (server (sent w) (trade_request MD5 this tok)) as [ms|ms r|]; cbn.
  - now rewrite N.add_0_r.
  - unfold response_json.
    destruct (body r) as [body_|]; cbn.
    + destruct (parseJSON body_) as [[|session]|]; cbn;
        now rewrite ?N.add_0_r.
    + now rewrite !N.add_0_r.
  - reflexivity.
Qed.

(** X5. [tradeTokenForSession] issues exactly one request and never touches
    the store. It resolves, with the [session] member of the reply, whenever
    the body of the answer is JSON other than [null], whatever the HTTP
    status; every rejection is the method's own error wrapped around a
    network, body, JSON or property-read failure; and it stays pending only
    when the remote end never answers. *)
Theorem tradeTokenForSession_outcome (tok : value) (w : World) :
  snd (trade tok w) = logged w (trade_request MD5 this tok)
  /\ (forall (ms : N) (r : Response) (body_ : string)
             (session : option Session),
         server (sent w) (trade_request MD5 this tok) = Answered ms r ->
         body r = Some body_ ->
         parseJSON body_ = Some (ReplyData session) ->
         fst (trade tok w) = Settled ms (inl session))
  /\ (forall (ms : N) (e : reason),
         fst (trade tok w) = Settled ms (inr e) ->
         exists cause,
           e = Wrapped (label this ++ " auth.tradeTokenForSession failed: ")
                 cause
           /\ is_trade_cause cause)
  /\ (fst (trade tok w) = Never <->
      server (sent w) (trade_request MD5 this tok) = Silent).
Proof.
  rewrite trade_run. cbn [fst snd]. unfold is_trade_cause.
  split; [reflexivity|]. split; [|split].
  - intros ms r body_ session Hsrv Hbody Hjson.
    now rewrite Hsrv, Hbody, Hjson.
  - intros ms e.
    destruct (server (sent w) _) as [ms'|ms' r|];
      [| destruct (body r) as [body_|];
         [destruct (parseJSON body_) as [[|session]|]|] |];
      intros H; inversion H; eauto 6.
  - destruct (server (sent w) _) as [ms'|ms' r|];
      [| destruct (body r) as [body_|];
         [destruct (parseJSON body_) as [[|session]|]|] |];
      split; intros H; congruence.
Qed.

(** X6. The wire format of the token trade: the signature is the digest of
    [api_key], [method] and [token] with their values, in that order,
    followed by the secret; the URL carries [method], the encoded [api_key]
    and [token], the signature as it is, and [format=json] last, outside of
    the signature. The request has no explicit HTTP method. *)
Theorem trade_request_wire (tok : value) :
  generateSign MD5 this (trade_params this tok)
  = MD5 ("api_key" ++ apiKey this ++ "methodauth.getsessiontoken"
           ++ toString tok ++ apiSecret this)
  /\ url (trade_request MD5 this tok)
     = apiUrl this ++ "?method=auth.getsession&api_key="
         ++ encodeURIComponent (apiKey this) ++ "&token="
         ++ encodeURIComponent (toString tok) ++ "&api_sig="
         ++ generateSign MD5 this (trade_params this tok) ++ "&format=json"
  /\ method (trade_request MD5 this tok) = None.
Proof.
  split; [|split; [|reflexivity]].
  - unfold generateSign, trade_params.
    cbn [keys map fst sort fold_right sort_insert].
    cbn. rewrite !append_assoc. reflexivity.
  - unfold trade_request. cbn [url].
    rewrite createQueryString_parts, join_concat.
    unfold trade_params.
    cbn [map String.concat query_part fst snd toString].
    rewrite !append_assoc. reflexivity.
Qed.
(** *** getSession *)

(** The store [getSession] leaves when it settles: no truthy token; on a
    rejection, which is always AuthError, no truthy sessionID either; on a
    resolution the session it resolved with. *)
Lemma getSession_settled (w : World) (ms : N) (r : SessionData + reason) :
  fst (get_session w) = Settled ms r ->
  truthy (token (storage (snd (get_session w)))) = false
  /\ match r with
     | inl sd => sd = cached_session (storage (snd (get_session w)))
     | inr e =>
         e = Svc AuthError
         /\ truthy (sessionID (storage (snd (get_session w)))) = false
     end.
Proof.
  destruct (truthy (token (storage w))) eqn:Htok.
  - rewrite (getSession_trade MD5 parseJSON server this w Htok).
    destruct (trade (token (storage w)) w) as [[ms' [[s|]|e]|] w1];
      cbn; intros H; inversion H; subst; auto.
  - rewrite (getSession_no_token MD5 parseJSON server this w Htok).
    destruct (truthy (sessionID (storage w))) eqn:Hs;
      cbn; intros H; inversion H; subst; auto.
Qed.

(** X7. Whenever [getSession] settles, the store it leaves holds no usable
    token; when it resolves, the session it resolves with is the sessionID
    and sessionName then in the store; when it rejects, the reason is
    AuthError, never the error of the trade, and the store holds no usable
    sessionID. *)
Theorem getSession_postcondition (w : World) (ms : N) :
  (forall sd : SessionData,
      fst (get_session w) = Settled ms (inl sd) ->
      truthy (token (storage (snd (get_session w)))) = false
      /\ sd_sessionID sd = sessionID (storage (snd (get_session w)))
      /\ sd_sessionName sd = sessionName (storage (snd (get_session w))))
  /\ (forall e : reason,
        fst (get_session w) = Settled ms (inr e) ->
        e = Svc AuthError
        /\ truthy (token (storage (snd (get_session w)))) = false
        /\ truthy (sessionID (storage (snd (get_session w)))) = false).
Proof.
  split.
  - intros sd H. destruct (getSession_settled w ms (inl sd) H) as [Ht Hsd].
    rewrite Hsd at 1 2. cbn. auto.
  - intros e H. destruct (getSession_settled w ms (inr e) H) as [Ht [He Hs]].
    auto.
Qed.

(** X8. After a rejected [getSession], whether the trade failed or there
    was nothing to trade, every further [getSession] rejects at once with
    AuthError, issues no request and changes nothing. *)
Theorem getSession_fails_fast (w : World) (ms : N) (e : reason) :
  fst (get_session w) = Settled ms (inr e) ->
  forall n : nat,
    repeat_call get_session n (snd (get_session w))
    = (repeat (Settled 0 (inr (Svc AuthError))) n, snd (get_session w)).
Proof.
  intros H. destruct (getSession_settled w ms (inr e) H) as [Ht [_ Hs]].
  assert (Hone : get_session (snd (get_session w))
                 = (Settled 0 (inr (Svc AuthError)), snd (get_session w))).
  { rewrite (getSession_no_token MD5 parseJSON server this _ Ht).
    now rewrite Hs. }
  induction n as [|n IH]; [reflexivity|].
  cbn [repeat_call repeat]. rewrite Hone, IH. reflexivity.
Qed.

(** X9. The token is traded once: after a trade that produced a session,
    the next [getSession] issues no request; it resolves with the traded
    session when its key is a truthy value, and rejects with AuthError when
    the reply carried no usable key. *)
Theorem getSession_after_trade (w : World) (ms : N) (s : Session) :
  truthy (token (storage w)) = true ->
  fst (trade (token (storage w)) w) = Settled ms (inl (Some s)) ->
  get_session (snd (get_session w))
  = (if truthy (key s) then Settled 0 (inl (session_data s))
     else Settled 0 (inr (Svc AuthError)),
     snd (get_session w)).
Proof.
  intros Htok Htr.
  destruct (getSession_trade_success MD5 parseJSON server this w ms s Htok Htr)
    as [_ Hst].
  rewrite getSession_no_token by (rewrite Hst; reflexivity).
  rewrite Hst. reflexivity.
Qed.

(** *** getAuthUrl *)

Lemma getAuthUrl_run (w : World) :
  get_auth_url w
  = match server (sent w) (auth_request this) with
    | Failed ms =>
        (if (ms <? GET_AUTH_URL_TIMEOUT)%N then Settled ms (inr NetworkError)
         else Settled GET_AUTH_URL_TIMEOUT (inr PromiseTimeout),
         logged w (auth_request this))
    | Answered ms r =>
        match body r with
        | None =>
            (if (ms <? GET_AUTH_URL_TIMEOUT)%N then Settled ms (inr BodyError)
             else Settled GET_AUTH_URL_TIMEOUT (inr PromiseTimeout),
             logged w (auth_request this))
        | Some body_ =>
            match parseXML body_ with
            | None =>
                (if (ms <? GET_AUTH_URL_TIMEOUT)%N
                 then Settled ms (inr XmlError)
                 else Settled GET_AUTH_URL_TIMEOUT (inr PromiseTimeout),
                 logged w (auth_request this))
            | Some xml =>
                if strict_eqb (attr "status" (find "lfm" xml)) (VStr "ok")
                then
                  (if (ms <? GET_AUTH_URL_TIMEOUT)%N
                   then Settled ms
                          (inl (authUrl this ++ "?api_key=" ++ apiKey this
                                  ++ "&token=" ++ text (find "token" xml)))
                   else Settled GET_AUTH_URL_TIMEOUT (inr PromiseTimeout),
                   {| storage :=
                        {| token := VStr (text (find "token" xml));
                           sessionID := VNull;
                           sessionName := sessionName (storage w) |};
                      sent := List.app (sent w) [auth_request this] |})
                else
                  (if (ms <? GET_AUTH_URL_TIMEOUT)%N
                   then Settled ms (inr NoReason)
                   else Settled GET_AUTH_URL_TIMEOUT (inr PromiseTimeout),
                   {| storage :=
                        {| token := VNull;
                           sessionID := sessionID (storage w);
                           sessionName := sessionName (storage w) |};
                      sent := List.app (sent w) [auth_request this] |})
            end
        end
    | Silent =>
        (Settled GET_AUTH_URL_TIMEOUT (inr PromiseTimeout),
         logged w (auth_request this))
    end.
Proof.
  unfold getAuthUrl, timeoutPromise, andThen.
  rewrite fetch_run. fold (auth_request this).
  destruct (server (sent w) (auth_request this)) as [ms|ms r|]; cbn;
    [reflexivity | | reflexivity].
  unfold response_text.
  destruct (body r) as [body_|]; cbn; [|now rewrite N.add_0_r].
  unfold parse_xml.
  destruct (parseXML body_) as [xml|]; cbn; [|now rewrite !N.add_0_r].
  destruct (strict_eqb _ _); cbn; now rewrite !N.add_0_r.
Qed.

(** The URL [getAuthUrl] resolves with carries the token it stored. *)
Lemma getAuthUrl_resolved_store (w : World) (ms : N) (u : string) :
  fst (get_auth_url w) = Settled ms (inl u) ->
  exists tok : string,
    u = authUrl this ++ "?api_key=" ++ apiKey this ++ "&token=" ++ tok
    /\ storage (snd (get_auth_url w))
       = {| token := VStr tok; sessionID := VNull;
            sessionName := sessionName (storage w) |}.
Proof.
  rewrite getAuthUrl_run.
  destruct (server (sent w) (auth_request this)) as [ms'|ms' r|];
    [| destruct (body r) as [body_|];
       [destruct (parseXML body_) as [xml|];
        [destruct (strict_eqb _ _)|]|] |];
    cbn [fst snd];
    try (destruct (ms' <? GET_AUTH_URL_TIMEOUT)%N);
    intros H; inversion H; subst.
  eexists. split; reflexivity.
Qed.

(** X10. [getAuthUrl] resolves only when the remote end has answered, no
    later than the timeout, with a body that parses to an envelope of status
    ok; the
    URL it resolves with is the authorization URL of the instance carrying
    the token of that envelope, and the store then holds exactly that token,
    a null sessionID and the sessionName it had. *)
Theorem getAuthUrl_resolved (w : World) (ms : N) (u : string) :
  fst (get_auth_url w) = Settled ms (inl u) ->
  (ms <= 10000)%N
  /\ exists (r : Response) (body_ : string) (xml : jq),
      server (sent w) (auth_request this) = Answered ms r
      /\ body r = Some body_
      /\ parseXML body_ = Some xml
      /\ attr "status" (find "lfm" xml) = VStr "ok"
      /\ u = authUrl this ++ "?api_key=" ++ apiKey this ++ "&token="
               ++ text (find "token" xml)
      /\ storage (snd (get_auth_url w))
         = {| token := VStr (text (find "token" xml)); sessionID := VNull;
              sessionName := sessionName (storage w) |}.
Proof.
  rewrite getAuthUrl_run.
  destruct (server (sent w) (auth_request this)) as [ms'|ms' r|] eqn:Hsrv;
    [| destruct (body r) as [body_|] eqn:Hbody;
       [destruct (parseXML body_) as [xml|] eqn:Hxml;
        [destruct (strict_eqb _ _) eqn:Hst|]|] |];
    cbn [fst snd];
    try (destruct (ms' <? GET_AUTH_URL_TIMEOUT)%N eqn:Hlt);
    intros H; inversion H; subst.
  apply N.ltb_lt in Hlt. apply strict_eqb_eq in Hst.
  split; [unfold GET_AUTH_URL_TIMEOUT in Hlt; lia|].
  exists r, body_, xml. repeat split; assumption.
Qed.

(** X11. [getAuthUrl] always issues exactly one request, the token request.
    When the call fails on the network, when the body cannot be read or
    does not parse, or when no answer comes, the store is left as it was:
    only an answered envelope writes credentials. No rejection of
    [getAuthUrl] is a ServiceCallResult. *)
Theorem getAuthUrl_failures (w : World) :
  sent (snd (get_auth_url w)) = List.app (sent w) [auth_request this]
  /\ ((server (sent w) (auth_request this) = Silent
       \/ (exists ms, server (sent w) (auth_request this) = Failed ms)
       \/ (exists ms r,
              server (sent w) (auth_request this) = Answered ms r
              /\ (body r = None
                  \/ exists body_, body r = Some body_
                                   /\ parseXML body_ = None))) ->
      storage (snd (get_auth_url w)) = storage w)
  /\ (forall (ms : N) (e : reason),
         fst (get_auth_url w) = Settled ms (inr e) ->
         is_raw_exception e = true).
Proof.
  rewrite getAuthUrl_run.
  split; [|split].
  - destruct (server (sent w) (auth_request this)) as [ms'|ms' r|];
      [| destruct (body r) as [body_|];
         [destruct (parseXML body_) as [xml|];
          [destruct (strict_eqb _ _)|]|] |];
      reflexivity.
  - intros [H|[[ms H]|[ms [r [H Hb]]]]]; rewrite H; try reflexivity.
    destruct Hb as [Hb|[body_ [Hb Hp]]]; rewrite Hb; [reflexivity|].
    now rewrite Hp.
  - intros ms e.
    destruct (server (sent w) (auth_request this)) as [ms'|ms' r|];
      [| destruct (body r) as [body_|];
         [destruct (parseXML body_) as [xml|];
          [destruct (strict_eqb _ _)|]|] |];
      cbn [fst];
      try (destruct (ms' <? GET_AUTH_URL_TIMEOUT)%N);
      intros H; inversion H; reflexivity.
Qed.

(** X12. The handshake: after [getAuthUrl] has been answered with an ok
    envelope, the next [getSession] trades exactly the token of that
    envelope, so that the two calls have issued the token request and the
    trade of that token; when the envelope carried an empty token,
    [getSession] rejects with AuthError at once and trades nothing. *)
Theorem handshake_trades_stored_token (w : World) (ms : N) (r : Response)
        (body_ : string) (xml : jq) :
  server (sent w) (auth_request this) = Answered ms r ->
  body r = Some body_ ->
  parseXML body_ = Some xml ->
  attr "status" (find "lfm" xml) = VStr "ok" ->
  (text (find "token" xml) <> EmptyString ->
   sent (snd (get_session (snd (get_auth_url w))))
   = List.app (sent w)
       [auth_request this;
        trade_request MD5 this (VStr (text (find "token" xml)))])
  /\ (text (find "token" xml) = EmptyString ->
      get_session (snd (get_auth_url w))
      = (Settled 0 (inr (Svc AuthError)), snd (get_auth_url w))).
Proof.
  intros Hsrv Hbody Hxml Hst.
  rewrite (getAuthUrl_ok parseXML server this w ms r body_ xml)
    by assumption.
  cbn [snd]. split.
  - intros Hne.
    rewrite getSession_trade_sent.
    + cbn [storage sent token]. rewrite <- app_assoc. reflexivity.
    + cbn. apply String.eqb_neq in Hne. now rewrite Hne.
  - intros Heq.
    rewrite getSession_no_token by (cbn; now rewrite Heq).
    reflexivity.
Qed.

(** *** sendNowPlaying, scrobble, toggleLove *)

Local Abbreviation send_now_playing :=
  (sendNowPlaying MD5 parseXML parseJSON server this).
Local Abbreviation scrobble_ := (scrobble MD5 parseXML parseJSON server this).
Local Abbreviation toggle_love :=
  (toggleLove MD5 parseXML parseJSON server this).

(** The shape the three methods share: [getSession], then one signed POST,
    then [processResponse]. *)
Lemma session_call_run (params : value -> object) (w : World) :
  (s <- get_session ;;
   doc <- do_request "POST" (params (sd_sessionID s)) true ;;
   resolve (processResponse doc)) w
  = match get_session w with
    | (Settled ms (inl s), w1) =>
        (later ms
           (call_outcome parseXML
              (server (sent w1)
                 (api_request MD5 this "POST" (params (sd_sessionID s)) true))),
         logged w1
           (api_request MD5 this "POST" (params (sd_sessionID s)) true))
    | (Settled ms (inr e), w1) => (Settled ms (inr e), w1)
    | (Never, w1) => (Never, w1)
    end.
Proof.
  unfold andThen at 1.
  destruct (get_session w) as [[ms [s|e]|] w1]; try reflexivity.
  unfold andThen. rewrite doRequest_run. unfold call_outcome.
  destruct (server (sent w1) _) as [ms'|ms' r|]; cbn; try reflexivity.
  destruct (body r) as [body_|]; cbn; try reflexivity.
  destruct (parseXML body_) as [doc|]; cbn; now rewrite ?N.add_0_r.
Qed.

Lemma call_outcome_result (answer : FetchResult) :
  forall (ms : N) (r : ServiceCallResult + reason),
    call_outcome parseXML answer = Settled ms r -> is_call_result r.
Proof.
  unfold call_outcome, is_call_result.
  destruct answer as [ms'|ms' rsp|];
    [| destruct (body rsp) as [body_|];
       [destruct (parseXML body_) as [doc|]|] |];
    intros ms r H; inversion H; subst; auto.
  unfold processResponse. destruct (negb _); auto.
Qed.

(** A call that went beyond the requests of [getSession] settles as the
    answer to its own request decides. *)
Lemma session_call_result (params : value -> object) (w : World)
      (ms : N) (r : ServiceCallResult + reason) :
  sent (snd ((s <- get_session ;;
              doc <- do_request "POST" (params (sd_sessionID s)) true ;;
              resolve (processResponse doc)) w))
  <> sent (snd (get_session w)) ->
  fst ((s <- get_session ;;
        doc <- do_request "POST" (params (sd_sessionID s)) true ;;
        resolve (processResponse doc)) w) = Settled ms r ->
  is_call_result r.
Proof.
  rewrite session_call_run.
  destruct (get_session w) as [[ms' [s|e]|] w1]; cbn [fst snd].
  - intros _.
    destruct (call_outcome parseXML _) as [ms'' r'|] eqn:Hc; cbn;
      intros H; inversion H; subst.
    eapply call_outcome_result; eassumption.
  - intros Hsent. now contradiction Hsent.
  - intros Hsent. now contradiction Hsent.
Qed.

(** X13. Once [getSession] has resolved with a session, [sendNowPlaying]
    issues one POST request built from the parameter object holding
    method=track.updatenowplaying, the track and artist of the song, sk set
    to the sessionID and the signature; the object has the key album exactly
    when the song has an album and the key duration exactly when it has a
    duration, each with the song's value. *)
Theorem sendNowPlaying_request (song : Song) (w w1 : World) (ms : N)
        (s : SessionData) :
  get_session w = (Settled ms (inl s), w1) ->
  let params :=
    request_params MD5 this
      (sendNowPlaying_params this song (sd_sessionID s)) true in
  sent (snd (send_now_playing song w))
  = List.app (sent w1)
      [{| url := apiUrl this ++ "?" ++ createQueryString params;
          method := Some "POST" |}]
  /\ get params "method" = VStr "track.updatenowplaying"
  /\ get params "track" = getTrack song
  /\ get params "artist" = getArtist song
  /\ get params "sk" = sd_sessionID s
  /\ get params "api_sig"
     = VStr (generateSign MD5 this
               (JS.set (sendNowPlaying_params this song (sd_sessionID s))
                       "api_key" (VStr (apiKey this))))
  /\ has params "album" = truthy (getAlbum song)
  /\ has params "duration" = truthy (getDuration song)
  /\ (truthy (getAlbum song) = true -> get params "album" = getAlbum song)
  /\ (truthy (getDuration song) = true ->
      get params "duration" = getDuration song)
  /\ keys params
     = List.app ["method"; "track"; "artist"; "api_key"; "sk"]
         (List.app (if truthy (getAlbum song) then ["album"] else [])
            (List.app (if truthy (getDuration song) then ["duration"] else [])
                      ["api_sig"])).
Proof.
  intros Hs params.
  split.
  - unfold sendNowPlaying.
    rewrite (session_call_world MD5 parseXML parseJSON server this
               (sendNowPlaying_params this song) w), Hs.
    reflexivity.
  - subst params. unfold request_params, sendNowPlaying_params.
    destruct (truthy (getAlbum song)), (truthy (getDuration song));
      repeat split; try reflexivity; intros; try reflexivity; discriminate.
Qed.

(** X14. Once [getSession] has resolved with a session, [toggleLove] issues
    one POST request built from a parameter object with exactly the keys
    method, track, artist, api_key, sk and api_sig, where method is
    track.love for a loved song and track.unlove otherwise, and track and
    artist are the processed values of the song, or the parsed ones when
    the processed ones are missing. *)
Theorem toggleLove_request (song : Song) (isLoved : bool) (w w1 : World)
        (ms : N) (s : SessionData) :
  get_session w = (Settled ms (inl s), w1) ->
  let params :=
    request_params MD5 this
      (toggleLove_params this song isLoved (sd_sessionID s)) true in
  sent (snd (toggle_love song isLoved w))
  = List.app (sent w1)
      [{| url := apiUrl this ++ "?" ++ createQueryString params;
          method := Some "POST" |}]
  /\ get params "method"
     = VStr (if isLoved then "track.love" else "track.unlove")
  /\ get params "track" = JS.or (processed_track song) (parsed_track song)
  /\ get params "artist" = JS.or (processed_artist song) (parsed_artist song)
  /\ get params "sk" = sd_sessionID s
  /\ get params "api_sig"
     = VStr (generateSign MD5 this
               (JS.set (toggleLove_params this song isLoved (sd_sessionID s))
                       "api_key" (VStr (apiKey this))))
  /\ keys params = ["method"; "track"; "artist"; "api_key"; "sk"; "api_sig"].
Proof.
  intros Hs params.
  split.
  - unfold toggleLove.
    rewrite (session_call_world MD5 parseXML parseJSON server this
               (toggleLove_params this song isLoved) w), Hs.
    reflexivity.
  - subst params. unfold request_params, toggleLove_params.
    destruct isLoved; repeat split; reflexivity.
Qed.

(** X15. Once one of the three API methods has issued a request beyond
    those of [getSession], it settles only as the answer to that request
    decides: it resolves with Ok or OtherError or rejects with OtherError,
    never with AuthError and never with a raw exception. *)
Theorem api_methods_service_results (song : Song) (isLoved : bool)
        (w : World) (ms : N) (r : ServiceCallResult + reason) :
  (sent (snd (send_now_playing song w)) <> sent (snd (get_session w)) ->
   fst (send_now_playing song w) = Settled ms r -> is_call_result r)
  /\ (sent (snd (scrobble_ song w)) <> sent (snd (get_session w)) ->
      fst (scrobble_ song w) = Settled ms r -> is_call_result r)
  /\ (sent (snd (toggle_love song isLoved w)) <> sent (snd (get_session w)) ->
      fst (toggle_love song isLoved w) = Settled ms r -> is_call_result r).
Proof.
  split; [|split].
  - apply (session_call_result (sendNowPlaying_params this song)).
  - apply (session_call_result (scrobble_params this song)).
  - apply (session_call_result (toggleLove_params this song isLoved)).
Qed.

(** X16. Without a session no API request is made: when [getSession]
    rejects, each of the three methods rejects at the same time with
    AuthError and leaves the world [getSession] left; in particular with no
    token and no sessionID in the store they reject at once, the request log
    and the store unchanged. *)
Theorem api_methods_need_session (song : Song) (isLoved : bool) (w : World) :
  (forall (ms : N) (e : reason) (w1 : World),
      get_session w = (Settled ms (inr e), w1) ->
      send_now_playing song w = (Settled ms (inr (Svc AuthError)), w1)
      /\ scrobble_ song w = (Settled ms (inr (Svc AuthError)), w1)
      /\ toggle_love song isLoved w = (Settled ms (inr (Svc AuthError)), w1))
  /\ (truthy (token (storage w)) = false ->
      truthy (sessionID (storage w)) = false ->
      send_now_playing song w = (Settled 0 (inr (Svc AuthError)), w)
      /\ scrobble_ song w = (Settled 0 (inr (Svc AuthError)), w)
      /\ toggle_love song isLoved w = (Settled 0 (inr (Svc AuthError)), w)).
Proof.
  assert (Hrej : forall ms e w1,
             get_session w = (Settled ms (inr e), w1) ->
             forall params : value -> object,
               (s <- get_session ;;
                doc <- do_request "POST" (params (sd_sessionID s)) true ;;
                resolve (processResponse doc)) w
               = (Settled ms (inr (Svc AuthError)), w1)).
  { intros ms e w1 Hs params.
    assert (Hfst : fst (get_session w) = Settled ms (inr e))
      by now rewrite Hs.
    destruct (getSession_settled w ms (inr e) Hfst) as [_ [He _]].
    rewrite session_call_run, Hs, He. reflexivity. }
  split.
  - intros ms e w1 Hs. repeat split; apply (Hrej ms e w1 Hs).
  - intros Htok Hsess.
    assert (Hs : get_session w = (Settled 0 (inr (Svc AuthError)), w)).
    { rewrite getSession_no_token by assumption. now rewrite Hsess. }
    repeat split; apply (Hrej 0%N _ w Hs).
Qed.

(** X17. With a session in the store and no token, each of the three
    methods issues exactly one request, its own signed POST with sk set to
    the stored sessionID, settles as the answer to that request decides, and
    leaves the stored credentials untouched, also when the call fails. *)
Theorem api_methods_authenticated (song : Song) (isLoved : bool) (w : World) :
  truthy (token (storage w)) = false ->
  truthy (sessionID (storage w)) = true ->
  let run (params : object) :=
    (call_outcome parseXML
       (server (sent w) (api_request MD5 this "POST" params true)),
     logged w (api_request MD5 this "POST" params true)) in
  send_now_playing song w
  = run (sendNowPlaying_params this song (sessionID (storage w)))
  /\ scrobble_ song w
     = run (scrobble_params this song (sessionID (storage w)))
  /\ toggle_love song isLoved w
     = run (toggleLove_params this song isLoved (sessionID (storage w))).
Proof.
  intros Htok Hsess run.
  assert (Hs : get_session w
               = (Settled 0 (inl (cached_session (storage w))), w)).
  { rewrite getSession_no_token by assumption. now rewrite Hsess. }
  assert (Hcall : forall params : value -> object,
             (s <- get_session ;;
              doc <- do_request "POST" (params (sd_sessionID s)) true ;;
              resolve (processResponse doc)) w
             = run (params (sessionID (storage w)))).
  { intros params. rewrite session_call_run, Hs. cbn [cached_session
      sd_sessionID]. now rewrite later_zero. }
  repeat split; apply Hcall.
Qed.

(** X18. With a token pending, [scrobble] first trades it: when the trade
    yields a session, two requests are issued, the trade and then the
    scrobble signed with the traded key; the store holds the traded session
    and a null token whatever the answer to the scrobble; and the call
    settles as that answer decides, after the time both requests took. *)
Theorem scrobble_with_pending_token (song : Song) (w : World) (ms : N)
        (s : Session) :
  truthy (token (storage w)) = true ->
  fst (trade (token (storage w)) w) = Settled ms (inl (Some s)) ->
  let trade_req := trade_request MD5 this (token (storage w)) in
  let call_req :=
    api_request MD5 this "POST" (scrobble_params this song (key s)) true in
  scrobble_ song w
  = (later ms
       (call_outcome parseXML
          (server (List.app (sent w) [trade_req]) call_req)),
     {| storage := {| token := VNull; sessionID := key s;
                      sessionName := name s |};
        sent := List.app (sent w) [trade_req; call_req] |}).
Proof.
  intros Htok Htr trade_req call_req.
  assert (Hs : get_session w
               = (Settled ms (inl (session_data s)),
                  {| storage := {| token := VNull; sessionID := key s;
                                   sessionName := name s |};
                     sent := List.app (sent w) [trade_req] |})).
  { rewrite (getSession_trade MD5 parseJSON server this w Htok).
    pose proof (tradeTokenForSession_world MD5 parseJSON server this
                  (token (storage w)) w) as Hw.
    destruct (trade (token (storage w)) w) as [tr w1].
    cbn in Htr, Hw. subst tr w1. reflexivity. }
  unfold scrobble.
  rewrite (session_call_run (scrobble_params this song)), Hs.
  unfold logged. cbn [session_data sd_sessionID storage sent].
  rewrite <- app_assoc. reflexivity.
Qed.

(** *** timeoutPromise *)

(** X19. [timeoutPromise] never cancels the work of the promise it wraps:
    the effects are those of the promise, in time or not. A promise that
    settles before the timeout passes through unchanged; one that settles
    after it, or never, gives a rejection with the timeout error at the
    timeout; so every rejection is the timeout error or the promise's own. *)
Theorem timeoutPromise_spec {A : Type} (timeout : N) (p : Promise A)
        (w : World) :
  snd (timeoutPromise timeout p w) = snd (p w)
  /\ (forall (ms : N) (r : A + reason),
         fst (p w) = Settled ms r -> (ms < timeout)%N ->
         fst (timeoutPromise timeout p w) = Settled ms r)
  /\ (forall (ms : N) (r : A + reason),
         fst (p w) = Settled ms r -> (timeout < ms)%N ->
         fst (timeoutPromise timeout p w)
         = Settled timeout (inr PromiseTimeout))
  /\ (fst (p w) = Never ->
      fst (timeoutPromise timeout p w) = Settled timeout (inr PromiseTimeout))
  /\ (forall (ms : N) (e : reason),
         fst (timeoutPromise timeout p w) = Settled ms (inr e) ->
         e = PromiseTimeout \/ fst (p w) = Settled ms (inr e)).
Proof.
  unfold timeoutPromise. destruct (p w) as [[ms' r'|] w']; cbn [fst snd].
  - split; [reflexivity|]. split; [|split; [|split]].
    + intros ms r H Hlt. inversion H; subst.
      apply N.ltb_lt in Hlt. now rewrite Hlt.
    + intros ms r H Hlt. inversion H; subst.
      assert (Hge : (ms <? timeout)%N = false) by (apply N.ltb_ge; lia).
      now rewrite Hge.
    + discriminate.
    + intros ms e. destruct (ms' <? timeout)%N; intros H; inversion H; auto.
  - split; [reflexivity|]. split; [|split; [|split]]; try discriminate.
    + reflexivity.
    + intros ms e H. inversion H. auto.
Qed.

(** *** processResponse on documents *)

(** X20. A document without any lfm element, such as the empty set jQuery
    gives for an empty body, is judged OtherError; for a document whose root
    element is lfm, the status attribute of the root alone decides, whatever
    the document holds below it: Ok exactly when it is the string ok. *)
Theorem processResponse_envelope :
  (forall doc : jq, find "lfm" doc = [] -> processResponse doc = OtherError)
  /\ (forall (attrs : list (string * string)) (children : list node),
         processResponse [Document [Element "lfm" attrs children]] = Ok
         <-> attr_lookup attrs "status" = VStr "ok")
  /\ (forall (attrs : list (string * string)) (children : list node),
         attr_lookup attrs "status" = VUndefined ->
         processResponse [Document [Element "lfm" attrs children]]
         = OtherError).
Proof.
  split; [|split].
  - intros doc H. unfold processResponse. now rewrite H.
  - intros attrs children. unfold processResponse. cbn.
    destruct (strict_eqb (attr_lookup attrs "status") (VStr "ok")) eqn:E.
    + apply strict_eqb_eq in E. cbn. split; auto.
    + apply strict_eqb_neq in E. cbn. split; [discriminate | contradiction].
  - intros attrs children H. unfold processResponse. cbn. now rewrite H.
Qed.

(** *** authenticateScrobbler *)

Local Abbreviation authenticate :=
  (authenticateScrobbler parseXML server this).

(** X21. [authenticateScrobbler] always finishes, resolved, within the
    timeout of [getAuthUrl], and leaves the world [getAuthUrl] leaves. It
    either binds the scrobbler and opens one tab, on the authorization URL
    whose token is the one then in the store, or it shows the sign-in error
    and opens no tab itself; the click handler of that error opens the
    status page when the scrobbler has a status URL and nothing otherwise. *)
Theorem authenticateScrobbler_spec (w : World) :
  snd (authenticate w) = snd (get_auth_url w)
  /\ (exists ms : N,
         fst (fst (authenticate w)) = Settled ms (inl tt) /\ (ms <= 10000)%N)
  /\ ((exists tok : string,
          snd (fst (authenticate w))
          = [BindScrobbler (label this);
             CreateTab (authUrl this ++ "?api_key=" ++ apiKey this
                          ++ "&token=" ++ tok)]
          /\ token (storage (snd (authenticate w))) = VStr tok)
      \/ snd (fst (authenticate w))
         = [ShowSignInError (label this)
              (if (statusUrl this =? EmptyString)%string then []
               else [CreateTab (statusUrl this)])]).
Proof.
  unfold authenticateScrobbler.
  assert (Hbound : exists ms r, fst (get_auth_url w) = Settled ms r
                                /\ (ms <= 10000)%N)
    by apply (timeoutPromise_bounded GET_AUTH_URL_TIMEOUT).
  pose proof (getAuthUrl_resolved_store w) as Hres.
  destruct (get_auth_url w) as [[ms [u|e]|] w1]; cbn [fst snd] in *.
  - split; [reflexivity|]. split.
    + destruct Hbound as [ms' [r' [H Hle]]]. inversion H; subst. eauto.
    + left. destruct (Hres ms u eq_refl) as [tok [Hu Hst]].
      exists tok. rewrite Hu, Hst. split; reflexivity.
  - split; [reflexivity|]. split.
    + destruct Hbound as [ms' [r' [H Hle]]]. inversion H; subst. eauto.
    + right. unfold getStatusUrl.
      destruct (statusUrl this =? EmptyString)%string; reflexivity.
  - destruct Hbound as [ms' [r' [H _]]]. discriminate.
Qed.

End MoreProperties.

(* ================================================================= *)
(** ** The further properties at work on the concrete service *)

Lemma generateSign_ignores_reserved_witness :
  generateSign demo_md5 demo_options
    (JS.set (JS.set demo_params "format" (VStr "xml")) "callback" (VStr "cb"))
  = generateSign demo_md5 demo_options demo_params.
Proof.
  destruct (generateSign_ignores_reserved demo_md5 demo_options
              (JS.set demo_params "format" (VStr "xml"))) as [_ Hcb].
  destruct (generateSign_ignores_reserved demo_md5 demo_options demo_params)
    as [_ Hformat].
  rewrite (Hcb "callback" (VStr "cb") eq_refl).
  exact (Hformat "format" (VStr "xml") eq_refl).
Defined.

Lemma request_params_spec_witness :
  get (request_params demo_md5 demo_options
         [("api_key", VStr "other"); ("track", VStr "T")] true) "api_key"
  = VStr "KEY"
  /\ get (request_params demo_md5 demo_options
            [("api_key", VStr "other"); ("track", VStr "T")] true) "track"
     = VStr "T"
  /\ get (request_params demo_md5 demo_options
            [("api_key", VStr "other"); ("track", VStr "T")] true) "api_sig"
     = VStr "md5:api_keyKEYtrackTSECRET"
  /\ has (request_params demo_md5 demo_options
            [("api_key", VStr "other"); ("track", VStr "T")] false) "api_sig"
     = false
  /\ wf (request_params demo_md5 demo_options
           [("api_key", VStr "other"); ("track", VStr "T")] true).
Proof.
  destruct (request_params_spec demo_md5 demo_options
              [("api_key", VStr "other"); ("track", VStr "T")] true)
    as [Hkey [Hother [Hsig [_ Hwf]]]].
  destruct (request_params_spec demo_md5 demo_options
              [("api_key", VStr "other"); ("track", VStr "T")] false)
    as [_ [_ [_ [Hunsigned _]]]].
  split; [exact Hkey|].
  split; [apply (Hother "track"); discriminate|].
  split; [rewrite (Hsig eq_refl); reflexivity|].
  split; [rewrite (proj2 (Hunsigned eq_refl)); reflexivity|].
  apply Hwf. unfold wf. simpl.
  repeat constructor; simpl; intuition discriminate.
Defined.

Lemma signed_request_appends_signature_witness :
  url (api_request demo_md5 demo_options "POST" [("track", VStr "T")] true)
  = "https://ws.example/2.0/?track=T&api_key=KEY&api_sig=md5%3Aapi_keyKEYtrackTSECRET".
Proof.
  destruct (signed_request_appends_signature demo_md5 demo_options "POST"
              [("track", VStr "T")] eq_refl) as [Hurl _].
  rewrite Hurl. reflexivity.
Defined.

Lemma tradeTokenForSession_outcome_witness :
  fst (tradeTokenForSession demo_md5 demo_parseJSON
         (always (answer 80 403 session_json)) demo_options (VStr "abc123")
         token_world)
  = Settled 80 (inl (Some demo_session))
  /\ exists cause,
      Wrapped "Last.fm auth.tradeTokenForSession failed: " JsonError
      = Wrapped (label demo_options ++ " auth.tradeTokenForSession failed: ")
          cause
      /\ is_trade_cause cause.
Proof.
  destruct (tradeTokenForSession_outcome demo_md5 demo_parseJSON
              (always (answer 80 403 session_json)) demo_options
              (VStr "abc123") token_world) as [_ [Hok _]].
  destruct (tradeTokenForSession_outcome demo_md5 demo_parseJSON
              (always (answer 80 200 "<html>")) demo_options
              (VStr "abc123") token_world) as [_ [_ [Hrej _]]].
  split.
  - apply (Hok 80%N {| status := 403; body := Some session_json |}
             session_json (Some demo_session)); reflexivity.
  - apply (Hrej 80%N). reflexivity.
Defined.

Lemma getSession_postcondition_witness :
  (truthy (token (storage (snd (getSession demo_md5 demo_parseJSON demo_server
                                  demo_options token_world)))) = false
   /\ sd_sessionID (session_data demo_session)
      = sessionID (storage (snd (getSession demo_md5 demo_parseJSON
                                   demo_server demo_options token_world)))
   /\ sd_sessionName (session_data demo_session)
      = sessionName (storage (snd (getSession demo_md5 demo_parseJSON
                                     demo_server demo_options token_world))))
  /\ (Svc AuthError = Svc AuthError
      /\ truthy (token (storage (snd (getSession demo_md5 demo_parseJSON
                                        (always (Failed 30)) demo_options
                                        token_world)))) = false
      /\ truthy (sessionID (storage (snd (getSession demo_md5 demo_parseJSON
                                            (always (Failed 30)) demo_options
                                            token_world)))) = false).
Proof.
  split.
  - apply (proj1 (getSession_postcondition demo_md5 demo_parseJSON demo_server
                    demo_options token_world 90%N)).
    reflexivity.
  - apply (proj2 (getSession_postcondition demo_md5 demo_parseJSON
                    (always (Failed 30)) demo_options token_world 30%N)).
    reflexivity.
Defined.

Lemma getSession_fails_fast_witness :
  repeat_call
    (getSession demo_md5 demo_parseJSON (always (answer 80 403 error_json))
       demo_options)
    2
    (snd (getSession demo_md5 demo_parseJSON
            (always (answer 80 403 error_json)) demo_options token_world))
  = (repeat (Settled 0 (inr (Svc AuthError))) 2,
     snd (getSession demo_md5 demo_parseJSON
            (always (answer 80 403 error_json)) demo_options token_world)).
Proof.
  apply (getSession_fails_fast demo_md5 demo_parseJSON
           (always (answer 80 403 error_json)) demo_options token_world
           80%N (Svc AuthError)).
  reflexivity.
Defined.

Lemma getSession_after_trade_witness :
  getSession demo_md5 demo_parseJSON demo_server demo_options
    (snd (getSession demo_md5 demo_parseJSON demo_server demo_options
            token_world))
  = (Settled 0 (inl (session_data demo_session)),
     snd (getSession demo_md5 demo_parseJSON demo_server demo_options
            token_world)).
Proof.
  apply (getSession_after_trade demo_md5 demo_parseJSON demo_server
           demo_options token_world 90%N demo_session); reflexivity.
Defined.

Lemma getAuthUrl_resolved_witness :
  (120 <= 10000)%N
  /\ exists (r : Response) (body_ : string) (xml : jq),
      demo_server [] (auth_request demo_options) = Answered 120 r
      /\ body r = Some body_
      /\ demo_parseXML body_ = Some xml
      /\ attr "status" (find "lfm" xml) = VStr "ok"
      /\ "https://www.example/api/auth/?api_key=KEY&token=abc123"
         = authUrl demo_options ++ "?api_key=" ++ apiKey demo_options
             ++ "&token=" ++ text (find "token" xml)
      /\ storage (snd (getAuthUrl demo_parseXML demo_server demo_options
                         session_world))
         = {| token := VStr (text (find "token" xml)); sessionID := VNull;
              sessionName := sessionName (storage session_world) |}.
Proof.
  apply (getAuthUrl_resolved demo_parseXML demo_server demo_options
           session_world 120%N
           "https://www.example/api/auth/?api_key=KEY&token=abc123").
  reflexivity.
Defined.

Lemma getAuthUrl_failures_witness :
  sent (snd (getAuthUrl demo_parseXML (always (Failed 30)) demo_options
               token_world))
  = [auth_request demo_options]
  /\ storage (snd (getAuthUrl demo_parseXML (always (Failed 30)) demo_options
                     token_world))
     = storage token_world
  /\ storage (snd (getAuthUrl demo_parseXML (always (answer 30 200 "<lfm"))
                     demo_options token_world))
     = storage token_world
  /\ is_raw_exception NetworkError = true.
Proof.
  destruct (getAuthUrl_failures demo_parseXML (always (Failed 30))
              demo_options token_world) as [Hsent [Hkeep Hraw]].
  destruct (getAuthUrl_failures demo_parseXML (always (answer 30 200 "<lfm"))
              demo_options token_world) as [_ [Hkeep' _]].
  split; [exact Hsent|]. split; [|split].
  - apply Hkeep. right. left. exists 30%N. reflexivity.
  - apply Hkeep'. right. right.
    exists 30%N, {| status := 200; body := Some "<lfm" |}.
    split; [reflexivity|]. right. exists "<lfm". split; reflexivity.
  - apply (Hraw 30%N). reflexivity.
Defined.

Lemma handshake_trades_stored_token_witness :
  sent (snd (getSession demo_md5 demo_parseJSON demo_server demo_options
               (snd (getAuthUrl demo_parseXML demo_server demo_options
                       (world_of empty_data)))))
  = [auth_request demo_options;
     trade_request demo_md5 demo_options (VStr "abc123")]
  /\ getSession demo_md5 demo_parseJSON (always (answer 120 200 empty_ok_xml))
       demo_options
       (snd (getAuthUrl demo_parseXML (always (answer 120 200 empty_ok_xml))
               demo_options session_world))
     = (Settled 0 (inr (Svc AuthError)),
        snd (getAuthUrl demo_parseXML (always (answer 120 200 empty_ok_xml))
               demo_options session_world)).
Proof.
  split.
  - apply (handshake_trades_stored_token demo_md5 demo_parseXML demo_parseJSON
             demo_server demo_options (world_of empty_data) 120%N
             {| status := 200; body := Some token_ok_xml |} token_ok_xml
             token_ok_doc eq_refl eq_refl eq_refl eq_refl).
    discriminate.
  - apply (handshake_trades_stored_token demo_md5 demo_parseXML demo_parseJSON
             (always (answer 120 200 empty_ok_xml)) demo_options session_world
             120%N {| status := 200; body := Some empty_ok_xml |} empty_ok_xml
             empty_ok_doc eq_refl eq_refl eq_refl eq_refl).
    reflexivity.
Defined.

Lemma sendNowPlaying_request_witness :
  sent (snd (sendNowPlaying demo_md5 demo_parseXML demo_parseJSON demo_server
               demo_options demo_song_with_album session_world))
  = [{| url := "https://ws.example/2.0/?method=track.updatenowplaying&track=T2&artist=A&api_key=KEY&sk=sess1&album=LP&duration=200&api_sig=md5%3AalbumLPapi_keyKEYartistAduration200methodtrack.updatenowplayingsksess1trackT2SECRET";
        method := Some "POST" |}]
  /\ has (request_params demo_md5 demo_options
            (sendNowPlaying_params demo_options demo_song (VStr "sess1")) true)
         "album" = false
  /\ get (request_params demo_md5 demo_options
            (sendNowPlaying_params demo_options demo_song_with_album
               (VStr "sess1")) true)
         "duration" = VNum 200.
Proof.
  destruct (sendNowPlaying_request demo_md5 demo_parseXML demo_parseJSON
              demo_server demo_options demo_song_with_album session_world
              session_world 0%N (cached_session (storage session_world))
              eq_refl)
    as [Hsent [_ [_ [_ [_ [_ [_ [_ [_ [Hduration _]]]]]]]]]].
  destruct (sendNowPlaying_request demo_md5 demo_parseXML demo_parseJSON
              demo_server demo_options demo_song session_world
              session_world 0%N (cached_session (storage session_world))
              eq_refl)
    as [_ [_ [_ [_ [_ [_ [Halbum _]]]]]]].
  split; [|split].
  - rewrite Hsent. reflexivity.
  - exact Halbum.
  - exact (Hduration eq_refl).
Defined.

Lemma toggleLove_request_witness :
  sent (snd (toggleLove demo_md5 demo_parseXML demo_parseJSON demo_server
               demo_options demo_song false session_world))
  = [{| url := "https://ws.example/2.0/?method=track.unlove&track=T&artist=A&api_key=KEY&sk=sess1&api_sig=md5%3Aapi_keyKEYartistAmethodtrack.unlovesksess1trackTSECRET";
        method := Some "POST" |}].
Proof.
  destruct (toggleLove_request demo_md5 demo_parseXML demo_parseJSON
              demo_server demo_options demo_song false session_world
              session_world 0%N (cached_session (storage session_world))
              eq_refl) as [Hsent _].
  rewrite Hsent. reflexivity.
Defined.

Lemma api_methods_service_results_witness :
  is_call_result (inl Ok) /\ is_call_result (inr (Svc OtherError)).
Proof.
  split.
  - apply (proj1 (proj2 (api_methods_service_results demo_md5 demo_parseXML
                           demo_parseJSON demo_server demo_options demo_song
                           true session_world 60%N (inl Ok)))).
    + discriminate.
    + reflexivity.
  - apply (proj1 (proj2 (api_methods_service_results demo_md5 demo_parseXML
                           demo_parseJSON (always (Failed 30)) demo_options
                           demo_song true session_world 30%N
                           (inr (Svc OtherError))))).
    + discriminate.
    + reflexivity.
Defined.

Lemma api_methods_need_session_witness :
  scrobble demo_md5 demo_parseXML demo_parseJSON demo_server demo_options
    demo_song (world_of empty_data)
  = (Settled 0 (inr (Svc AuthError)), world_of empty_data)
  /\ toggleLove demo_md5 demo_parseXML demo_parseJSON
       (always (answer 80 403 error_json)) demo_options demo_song true
       token_world
     = (Settled 80 (inr (Svc AuthError)),
        {| storage := all_null;
           sent := [trade_request demo_md5 demo_options (VStr "abc123")] |}).
Proof.
  destruct (api_methods_need_session demo_md5 demo_parseXML demo_parseJSON
              demo_server demo_options demo_song true (world_of empty_data))
    as [_ Hnone].
  destruct (api_methods_need_session demo_md5 demo_parseXML demo_parseJSON
              (always (answer 80 403 error_json)) demo_options demo_song true
              token_world) as [Hrej _].
  split.
  - apply (Hnone eq_refl eq_refl).
  - apply (Hrej 80%N (Svc AuthError)
             {| storage := all_null;
                sent := [trade_request demo_md5 demo_options
                           (VStr "abc123")] |}).
    reflexivity.
Defined.

Lemma api_methods_authenticated_witness :
  scrobble demo_md5 demo_parseXML demo_parseJSON
    (always (answer 60 403 failed_xml)) demo_options demo_song session_world
  = (Settled 60 (inl OtherError),
     logged session_world
       (api_request demo_md5 demo_options "POST"
          (scrobble_params demo_options demo_song (VStr "sess1")) true)).
Proof.
  destruct (api_methods_authenticated demo_md5 demo_parseXML demo_parseJSON
              (always (answer 60 403 failed_xml)) demo_options demo_song true
              session_world eq_refl eq_refl) as [_ [Hscrobble _]].
  rewrite Hscrobble. reflexivity.
Defined.

Lemma scrobble_with_pending_token_witness :
  scrobble demo_md5 demo_parseXML demo_parseJSON demo_server demo_options
    demo_song token_world
  = (Settled 150 (inl Ok),
     {| storage := {| token := VNull; sessionID := VStr "sess1";
                      sessionName := VStr "u1" |};
        sent := [trade_request demo_md5 demo_options (VStr "abc123");
                 api_request demo_md5 demo_options "POST"
                   (scrobble_params demo_options demo_song (VStr "sess1"))
                   true] |}).
Proof.
  rewrite (scrobble_with_pending_token demo_md5 demo_parseXML demo_parseJSON
             demo_server demo_options demo_song token_world 90%N demo_session
             eq_refl eq_refl).
  reflexivity.
Defined.

Lemma timeoutPromise_spec_witness :
  fst (timeoutPromise 100 (fetch (always (answer 40 200 failed_xml))
                             (auth_request demo_options))
         (world_of empty_data))
  = Settled 40 (inl {| status := 200; body := Some failed_xml |})
  /\ fst (timeoutPromise 30 (fetch (always (answer 40 200 failed_xml))
                               (auth_request demo_options))
            (world_of empty_data))
     = Settled 30 (inr PromiseTimeout)
  /\ fst (timeoutPromise 30 (fetch (always Silent) (auth_request demo_options))
            (world_of empty_data))
     = Settled 30 (inr PromiseTimeout).
Proof.
  split; [|split].
  - apply (proj1 (proj2 (timeoutPromise_spec 100
                           (fetch (always (answer 40 200 failed_xml))
                              (auth_request demo_options))
                           (world_of empty_data)))).
    + reflexivity.
    + reflexivity.
  - apply (proj1 (proj2 (proj2 (timeoutPromise_spec 30
                                  (fetch (always (answer 40 200 failed_xml))
                                     (auth_request demo_options))
                                  (world_of empty_data))))
             40%N (inl {| status := 200; body := Some failed_xml |})).
    + reflexivity.
    + reflexivity.
  - apply (proj1 (proj2 (proj2 (proj2 (timeoutPromise_spec 30
                                         (fetch (always Silent)
                                            (auth_request demo_options))
                                         (world_of empty_data)))))).
    reflexivity.
Defined.

Lemma processResponse_envelope_witness :
  processResponse [] = OtherError
  /\ processResponse token_ok_doc = Ok
  /\ processResponse
       [Document [Element "lfm" [] [Element "lfm" [("status", "ok")] []]]]
     = OtherError.
Proof.
  destruct processResponse_envelope as [Hnone [Hroot Hmissing]].
  split; [|split].
  - apply Hnone. reflexivity.
  - apply Hroot. reflexivity.
  - apply Hmissing. reflexivity.
Defined.
